(** * Backburner screener: detector, indicators and rate limiter

    A shallow embedding of the TypeScript sources
      - [src/backburner-detector.ts]: class [BackburnerDetector];
      - [src/mexc-api.ts]: class [RateLimiter], and after it the indicator
        functions the detector imports from [./indicators.js] (RSI, averages,
        extrema, impulse moves);
    with the properties the specification states about them.

    Numbers.  A JavaScript [number] is an IEEE 754 binary64 value, and so is
    Rocq's primitive [float]: prices, volumes, oscillator values and
    thresholds are [float]s, and [+], [-], [*], [/], [<], [>=] and [===] are
    the primitive operations, NaN, infinities and signed zeros included.
    Array lengths, indices and periods are [nat]; timestamps (integer
    milliseconds) are [Z].

    Exceptions.  Reading a property of [undefined] raises a [TypeError] in
    JavaScript.  Functions that index an array return a [Result], whose
    [TypeError] constructor stands for that exception.

    Missing modules.  [types.ts] and [config.ts] are not part of the sources
    at hand: the types are read off their uses, and the configuration is a
    parameter ([Config]) of every function of the detector. *)

From Stdlib Require Import ZArith List Bool Lia Floats Uint63.
From stdpp Require Import base option list strings gmap.

Set Warnings "-inexact-float".
Set Default Proof Using "Type".

(* ===================================================================== *)
(** * Numbers and exceptions *)
(* ===================================================================== *)

(** An array length or a period, used as an operand of float arithmetic. *)
Definition nat_to_float (n : nat) : float :=
  PrimFloat.of_uint63 (Uint63.of_Z (Z.of_nat n)).

(** [xs.reduce((a, b) => a + b, 0)] *)
Definition sum (xs : list float) : float :=
  fold_left PrimFloat.add xs 0%float.

(** [xs.slice(a, b)] for [0 <= a], [0 <= b]. *)
Definition slice {A} (a b : nat) (xs : list A) : list A :=
  take (b - a) (drop a xs).

(** [xs.slice(-k)]: the last [k] elements; [-0] is [0], so [xs.slice(-0)] is
    the whole array. *)
Definition sliceLast {A} (k : nat) (xs : list A) : list A :=
  if (k =? 0)%nat then xs else drop (length xs - k) xs.

Inductive Result (A : Type) : Type :=
| Ok (a : A)
| TypeError.
Arguments Ok {A} a.
Arguments TypeError {A}.

Definition bind {A B} (r : Result A) (k : A -> Result B) : Result B :=
  match r with
  | Ok a => k a
  | TypeError => TypeError
  end.

Notation "'let*' x := r 'in' k" := (bind r (fun x => k))
  (at level 10, x pattern, r at level 100, k at level 200).

(** [xs[i]] followed by a property access. *)
Definition at_index {A} (xs : list A) (i : nat) : Result A :=
  match xs !! i with
  | Some x => Ok x
  | None => TypeError
  end.

(* ===================================================================== *)
(** * Data model ([types.ts], read off its uses) *)
(* ===================================================================== *)

Record Candle := mkCandle {
  timestamp : Z;
  open : float;
  high : float;
  low : float;
  close : float;
  volume : float
}.

Record RSIResult := mkRSI {
  value : float;
  rsi_timestamp : Z
}.

Inductive Timeframe := TF_5m | TF_15m | TF_1h | TF_4h | TF_1d.

Inductive SetupState :=
| watching | triggered | deep_oversold | bouncing | played_out.

Definition SetupState_eqb (a b : SetupState) : bool :=
  match a, b with
  | watching, watching | triggered, triggered
  | deep_oversold, deep_oversold | bouncing, bouncing
  | played_out, played_out => true
  | _, _ => false
  end.

(* ===================================================================== *)
(** * Indicator library ([indicators.ts]) *)
(* ===================================================================== *)

Module Indicators.

(** The loop [for (i = 1; i < candles.length; i++)] of [calculateRSI]:
    [change = candles[i].close - candles[i-1].close]. *)
Fixpoint closeChanges (candles : list Candle) : list float :=
  match candles with
  | c0 :: ((c1 :: _) as tl) => (close c1 - close c0)%float :: closeChanges tl
  | _ => []
  end.

(** [change > 0 ? change : 0] *)
Definition gainOf (change : float) : float :=
  if (0 <? change)%float then change else 0%float.

(** [change < 0 ? Math.abs(change) : 0] *)
Definition lossOf (change : float) : float :=
  if (change <? 0)%float then PrimFloat.abs change else 0%float.

(** [avgLoss === 0 ? 100 : 100 - (100 / (1 + avgGain / avgLoss))] *)
Definition rsiValue (avgGain avgLoss : float) : float :=
  if (avgLoss =? 0)%float then 100%float
  else (100 - 100 / (1 + avgGain / avgLoss))%float.

(** [(avg * (period - 1) + x) / period] *)
Definition smooth (pf avg x : float) : float :=
  ((avg * (pf - 1) + x) / pf)%float.

(** The loop [for (i = period; i < gains.length; i++)]: [gs], [ls] and [cs]
    are [gains], [losses] from index [i] and [candles] from index [i + 1]. *)
Fixpoint wilderLoop (pf avgGain avgLoss : float)
    (gs ls : list float) (cs : list Candle) : list RSIResult :=
  match gs, ls, cs with
  | g :: gs', l :: ls', c :: cs' =>
      let avgGain' := smooth pf avgGain g in
      let avgLoss' := smooth pf avgLoss l in
      mkRSI (rsiValue avgGain' avgLoss') (timestamp c)
        :: wilderLoop pf avgGain' avgLoss' gs' ls' cs'
  | _, _, _ => []
  end.

Definition calculateRSI (candles : list Candle) (period : nat)
    : list RSIResult :=
  if (length candles <? period + 1)%nat then []
  else
    let changes := closeChanges candles in
    let gains := map gainOf changes in
    let losses := map lossOf changes in
    let pf := nat_to_float period in
    let avgGain := (sum (slice 0 period gains) / pf)%float in
    let avgLoss := (sum (slice 0 period losses) / pf)%float in
    match drop period candles with
    | c :: cs =>
        mkRSI (rsiValue avgGain avgLoss) (timestamp c)
          :: wilderLoop pf avgGain avgLoss
               (drop period gains) (drop period losses) cs
    | [] => []  (* excluded by the guard: [period < candles.length] *)
    end.

(** [getCurrentRSI]: the last value, or [null]. *)
Definition getCurrentRSI (candles : list Candle) (period : nat)
    : option float :=
  value <$> last (calculateRSI candles period).

(** [calculateSMA]: the loop [for (i = period - 1; i < values.length; i++)]
    pushes [sum(values.slice(i - period + 1, i + 1)) / period].  For
    [period = 0] the loop starts at [i = -1] and every slice is empty. *)
Definition calculateSMA (values : list float) (period : nat) : list float :=
  match period with
  | O => replicate (S (length values)) (sum [] / nat_to_float 0)%float
  | S p' =>
      map (fun i => (sum (slice (i - p') (i + 1) values)
                       / nat_to_float period)%float)
          (seq p' (length values - p'))
  end.

(** [candles.reduce((sum, c) => sum + c.volume, 0)] *)
Definition sumVolume (candles : list Candle) : float :=
  fold_left (fun acc c => (acc + volume c)%float) candles 0%float.

Definition calculateAvgVolume (candles : list Candle) (period : nat) : float :=
  if (length candles <? period)%nat
  then (sumVolume candles / nat_to_float (length candles))%float
  else
    let recentCandles := sliceLast period candles in
    (sumVolume recentCandles / nat_to_float period)%float.

Record Extremum := mkExtremum {
  price : float;
  index : nat;
  ext_timestamp : Z
}.

(** The loop of [findHighestHigh]: [i] is the index of the head of [rest]. *)
Fixpoint highestScan (highest : Candle) (highestIndex i : nat)
    (rest : list Candle) : Candle * nat :=
  match rest with
  | [] => (highest, highestIndex)
  | c :: rest' =>
      if (high highest <? high c)%float
      then highestScan c i (S i) rest'
      else highestScan highest highestIndex (S i) rest'
  end.

(** On an empty array [candles[0]] is [undefined] and [highest.high]
    raises. *)
Definition findHighestHigh (candles : list Candle) : Result Extremum :=
  match candles with
  | [] => TypeError
  | c0 :: rest =>
      let '(highest, highestIndex) := highestScan c0 0 1 rest in
      Ok (mkExtremum (high highest) highestIndex (timestamp highest))
  end.

Fixpoint lowestScan (lowest : Candle) (lowestIndex i : nat)
    (rest : list Candle) : Candle * nat :=
  match rest with
  | [] => (lowest, lowestIndex)
  | c :: rest' =>
      if (low c <? low lowest)%float
      then lowestScan c i (S i) rest'
      else lowestScan lowest lowestIndex (S i) rest'
  end.

Definition findLowestLow (candles : list Candle) : Result Extremum :=
  match candles with
  | [] => TypeError
  | c0 :: rest =>
      let '(lowest, lowestIndex) := lowestScan c0 0 1 rest in
      Ok (mkExtremum (low lowest) lowestIndex (timestamp lowest))
  end.

Inductive Direction := up | down.

Record Impulse := mkImpulse {
  startIndex : nat;
  endIndex : nat;
  startPrice : float;
  endPrice : float;
  percentMove : float;
  direction : Direction
}.

(** [detectImpulseMove(candles, minPercentMove, lookbackPeriod = 50)];
    [Ok None] is [null]. *)
Definition detectImpulseMove (candles : list Candle) (minPercentMove : float)
    (lookbackPeriod : nat) : Result (option Impulse) :=
  if (length candles <? lookbackPeriod)%nat then Ok None
  else
    let recentCandles := sliceLast lookbackPeriod candles in
    let* highest := findHighestHigh recentCandles in
    let* lowest := findLowestLow recentCandles in
    let upMove :=
      if (index lowest <? index highest)%nat then
        let percentMove :=
          ((price highest - price lowest) / price lowest * 100)%float in
        if (minPercentMove <=? percentMove)%float
        then Some (mkImpulse (index lowest) (index highest)
                     (price lowest) (price highest) percentMove up)
        else None
      else None in
    match upMove with
    | Some m => Ok (Some m)
    | None =>
        if (index highest <? index lowest)%nat then
          let percentMove :=
            ((price highest - price lowest) / price highest * 100)%float in
          if (minPercentMove <=? percentMove)%float
          then Ok (Some (mkImpulse (index highest) (index lowest)
                           (price highest) (price lowest) percentMove down))
          else Ok None
        else Ok None
    end.

Definition isVolumeContracting (impulseCandles pullbackCandles : list Candle)
    : bool :=
  if ((length impulseCandles =? 0) || (length pullbackCandles =? 0))%nat
  then false
  else
    let impulseAvgVol :=
      (sumVolume impulseCandles
         / nat_to_float (length impulseCandles))%float in
    let pullbackAvgVol :=
      (sumVolume pullbackCandles
         / nat_to_float (length pullbackCandles))%float in
    (pullbackAvgVol <? impulseAvgVol * 0.8)%float.

(** [isHigherTFBullish(candles, smaPeriod = 20)] *)
Definition isHigherTFBullish (candles : list Candle) (smaPeriod : nat)
    : Result bool :=
  if (length candles <? smaPeriod)%nat then Ok false
  else
    let closes := map close candles in
    let sma := calculateSMA closes smaPeriod in
    match last sma with
    | None => Ok false
    | Some currentSMA =>
        let* c := at_index candles (length candles - 1) in
        Ok (currentSMA <? close c)%float
    end.

(** The loop [for (i = period; i < values.length; i++)] of [calculateEMA]:
    [prev] is [result[result.length - 1]]. *)
Fixpoint emaLoop (multiplier prev : float) (values : list float)
    : list float :=
  match values with
  | [] => []
  | v :: values' =>
      let ema := ((v - prev) * multiplier + prev)%float in
      ema :: emaLoop multiplier ema values'
  end.

Definition calculateEMA (values : list float) (period : nat) : list float :=
  if (length values <? period)%nat then []
  else
    let multiplier := (2 / (nat_to_float period + 1))%float in
    let sma := (sum (slice 0 period values) / nat_to_float period)%float in
    sma :: emaLoop multiplier sma (drop period values).

(** [rsiJustCrossedBelow(rsiValues, threshold, lookback = 3)]: the loop over
    [recent[0 .. recent.length - 2]] returns [true] at the first value at or
    above the threshold. *)
Definition rsiJustCrossedBelow (rsiValues : list RSIResult)
    (threshold : float) (lookback : nat) : Result bool :=
  if (length rsiValues <? lookback + 1)%nat then Ok false
  else
    let recent := sliceLast lookback rsiValues in
    let* cur := at_index recent (length recent - 1) in
    let current := value cur in
    if (threshold <=? current)%float then Ok false
    else
      Ok (existsb (fun r => (threshold <=? value r)%float)
            (take (length recent - 1) recent)).

End Indicators.

(* ===================================================================== *)
(** * The detector ([backburner-detector.ts]) *)
(* ===================================================================== *)

(** The fields of [DEFAULT_CONFIG] the detector reads ([config.ts] is not
    among the sources, so their values are parameters). *)
Record Config := mkConfig {
  rsiPeriod : nat;
  rsiOversoldThreshold : float;
  rsiDeepOversoldThreshold : float;
  minImpulsePercent : float
}.

Record BackburnerSetup := mkSetup {
  symbol : string;
  timeframe : Timeframe;
  state : SetupState;
  impulseHigh : float;
  impulseLow : float;
  impulseStartTime : Z;
  impulseEndTime : Z;
  impulsePercentMove : float;
  currentRSI : float;
  rsiAtTrigger : float;
  currentPrice : float;
  entryPrice : option float;
  detectedAt : Z;
  triggeredAt : option Z;
  lastUpdated : Z;
  impulseAvgVolume : float;
  pullbackAvgVolume : float;
  volumeContracting : bool;
  higherTFBullish : option bool
}.

(** The string a [Timeframe] is in the source. *)
Definition Timeframe_str (tf : Timeframe) : string :=
  match tf with
  | TF_5m => "5m" | TF_15m => "15m" | TF_1h => "1h"
  | TF_4h => "4h" | TF_1d => "1d"
  end.

(** The field updates of [updateExistingSetup], as functions on records. *)
Definition refresh (s : BackburnerSetup) (rsi px : float) (now : Z)
    (htf : option bool) : BackburnerSetup :=
  mkSetup (symbol s) (timeframe s) (state s) (impulseHigh s) (impulseLow s)
    (impulseStartTime s) (impulseEndTime s) (impulsePercentMove s)
    rsi (rsiAtTrigger s) px (entryPrice s) (detectedAt s) (triggeredAt s)
    now (impulseAvgVolume s) (pullbackAvgVolume s) (volumeContracting s)
    (match htf with Some b => Some b | None => higherTFBullish s end).

Definition with_state (s : BackburnerSetup) (st : SetupState)
    : BackburnerSetup :=
  mkSetup (symbol s) (timeframe s) st (impulseHigh s) (impulseLow s)
    (impulseStartTime s) (impulseEndTime s) (impulsePercentMove s)
    (currentRSI s) (rsiAtTrigger s) (currentPrice s) (entryPrice s)
    (detectedAt s) (triggeredAt s) (lastUpdated s) (impulseAvgVolume s)
    (pullbackAvgVolume s) (volumeContracting s) (higherTFBullish s).

(** The outcome of a call: what it returns ([None] is [null]) and the
    [activeSetups] map it leaves. *)
Definition Outcome : Type :=
  Result (option BackburnerSetup * gmap string BackburnerSetup).

Module BackburnerDetector.
Import Indicators.

Section Detector.

(** [this.config] *)
Variable config : Config.

(** [clock n] is what the [n]-th call of [Date.now()] within one public
    operation returns. *)
Variable clock : nat -> Z.

Definition getSetupKey (sym : string) (tf : Timeframe) : string :=
  sym +:+ "-" +:+ Timeframe_str tf.

(** The counting loop of [isFirstOversoldAfterImpulse]. *)
Fixpoint countOversold (rsiValues : list RSIResult) : nat :=
  match rsiValues with
  | [] => 0
  | r :: rest =>
      (if (value r <? rsiOversoldThreshold config)%float then 1 else 0)
      + countOversold rest
  end.

Definition isFirstOversoldAfterImpulse (rsiValues : list RSIResult)
    (impulseEndIndex totalCandles : nat) : bool :=
  let rsiOffset := (Z.of_nat totalCandles - Z.of_nat (length rsiValues))%Z in
  let startRSIIndex :=
    Z.to_nat (Z.max 0 (Z.of_nat impulseEndIndex - rsiOffset)) in
  let oversoldCount := countOversold (drop startRSIIndex rsiValues) in
  (oversoldCount <=? 1)%nat.

Definition detectNewSetup (sym : string) (tf : Timeframe)
    (candles : list Candle) (rsiValues : list RSIResult)
    (curRSI curPrice : float) (htfBullish : option bool)
    (activeSetups : gmap string BackburnerSetup) : Outcome :=
  let* found := detectImpulseMove candles (minImpulsePercent config) 50 in
  match found with
  | None => Ok (None, activeSetups)
  | Some impulse =>
    match direction impulse with
    | down => Ok (None, activeSetups)
    | up =>
      if (endPrice impulse <=? curPrice)%float then Ok (None, activeSetups)
      else if (curPrice <=? startPrice impulse)%float
      then Ok (None, activeSetups)
      else
        let isFirstOversold :=
          isFirstOversoldAfterImpulse rsiValues (endIndex impulse)
            (length candles) in
        if negb isFirstOversold
           && (rsiOversoldThreshold config <=? curRSI)%float
        then Ok (None, activeSetups)
        else
          let impulseCandles :=
            slice (startIndex impulse) (endIndex impulse + 1) candles in
          let pullbackCandles := drop (endIndex impulse + 1) candles in
          let contracting :=
            isVolumeContracting impulseCandles pullbackCandles in
          let st :=
            if (curRSI <? rsiDeepOversoldThreshold config)%float
            then deep_oversold
            else if (curRSI <? rsiOversoldThreshold config)%float
            then triggered
            else watching in
          if SetupState_eqb st watching then Ok (None, activeSetups)
          else
            let isActionable :=
              SetupState_eqb st triggered
              || SetupState_eqb st deep_oversold in
            let* cStart := at_index candles (startIndex impulse) in
            let* cEnd := at_index candles (endIndex impulse) in
            let setup :=
              mkSetup sym tf st
                (endPrice impulse) (startPrice impulse)
                (timestamp cStart) (timestamp cEnd)
                (percentMove impulse)
                curRSI curRSI curPrice
                (if isActionable then Some curPrice else None)
                (clock 1)
                (if isActionable then Some (clock 2) else None)
                (clock 3)
                (calculateAvgVolume impulseCandles (length impulseCandles))
                (calculateAvgVolume pullbackCandles
                   (length pullbackCandles))
                contracting htfBullish in
            Ok (Some setup, <[getSetupKey sym tf := setup]> activeSetups)
    end
  end.

Definition isSetupInvalidated (setup : BackburnerSetup)
    (candles : list Candle) : Result bool :=
  let* c := at_index candles (length candles - 1) in
  let curPrice := close c in
  if (curPrice <? impulseLow setup)%float then Ok true
  else if (SetupState_eqb (state setup) triggered
           || SetupState_eqb (state setup) deep_oversold)
          && (impulseHigh setup * 0.99 <=? curPrice)%float
  then Ok true
  else if SetupState_eqb (state setup) bouncing
          && (currentRSI setup <? rsiOversoldThreshold config)%float
  then Ok true
  else Ok false.

Definition determineSetupState (setup : BackburnerSetup) (curRSI : float)
    : SetupState :=
  let prevState := state setup in
  if (curRSI <? rsiDeepOversoldThreshold config)%float then deep_oversold
  else if (curRSI <? rsiOversoldThreshold config)%float then triggered
  else if SetupState_eqb prevState triggered
          || SetupState_eqb prevState deep_oversold
  then (if (40 <? curRSI)%float then played_out else bouncing)
  else if SetupState_eqb prevState bouncing
  then (if (50 <? curRSI)%float then played_out else bouncing)
  else state setup.

(** [setup] is the object the map holds at its key; the source updates it in
    place and then deletes or re-sets that key, which on a map of values is
    the deletion or insertion of the updated record. *)
Definition updateExistingSetup (setup : BackburnerSetup)
    (candles : list Candle) (curRSI curPrice : float)
    (htfBullish : option bool)
    (activeSetups : gmap string BackburnerSetup) : Outcome :=
  let now := clock 1 in
  let key := getSetupKey (symbol setup) (timeframe setup) in
  let setup1 := refresh setup curRSI curPrice now htfBullish in
  let* invalidated := isSetupInvalidated setup1 candles in
  if invalidated then
    let setup2 := with_state setup1 played_out in
    Ok (Some setup2, delete key activeSetups)
  else
    let setup2 := with_state setup1 (determineSetupState setup1 curRSI) in
    if SetupState_eqb (state setup2) played_out
    then Ok (Some setup2, delete key activeSetups)
    else Ok (Some setup2, <[key := setup2]> activeSetups).

(** The first reading of the clock, [const now = Date.now()], is not
    used. *)
Definition analyzeSymbol (sym : string) (tf : Timeframe)
    (candles : list Candle) (higherTFCandles : option (list Candle))
    (activeSetups : gmap string BackburnerSetup) : Outcome :=
  if (length candles <? 50)%nat then Ok (None, activeSetups)
  else
    let key := getSetupKey sym tf in
    let existingSetup := activeSetups !! key in
    let rsiValues := calculateRSI candles (rsiPeriod config) in
    match getCurrentRSI candles (rsiPeriod config) with
    | None => Ok (None, activeSetups)
    | Some curRSI =>
      if (length rsiValues <? 5)%nat then Ok (None, activeSetups)
      else
        let* c := at_index candles (length candles - 1) in
        let curPrice := close c in
        let* htfBullish :=
          match higherTFCandles with
          | Some htf => let* b := isHigherTFBullish htf 20 in Ok (Some b)
          | None => Ok None
          end in
        match existingSetup with
        | Some setup =>
            updateExistingSetup setup candles curRSI curPrice htfBullish
              activeSetups
        | None =>
            detectNewSetup sym tf candles rsiValues curRSI curPrice
              htfBullish activeSetups
        end
    end.

(** [getActiveSetups], [getSetupsByTimeframe], [getSetupsByState] and
    [getActiveSetupCount] read the map and leave it as it is. *)
Definition getActiveSetupCount (activeSetups : gmap string BackburnerSetup)
    : nat :=
  size activeSetups.

Definition removeSetup (sym : string) (tf : Timeframe)
    (activeSetups : gmap string BackburnerSetup)
    : gmap string BackburnerSetup :=
  delete (getSetupKey sym tf) activeSetups.

Definition clearAllSetups (activeSetups : gmap string BackburnerSetup)
    : gmap string BackburnerSetup :=
  ∅.

End Detector.

End BackburnerDetector.

(* ===================================================================== *)
(** * The rate limiter ([mexc-api.ts]) *)
(* ===================================================================== *)

(** JavaScript runs one callback at a time, to completion.  A call of
    [execute] and each resumption of a [run] closure after an [await] is one
    such callback, so a run of the limiter is a sequence of events, each
    carrying what [Date.now()] returns while it runs:
      - [Execute id now]: [execute(fn)] is called for request [id];
      - [TimerFired id now]: the [sleep] that [run] of request [id] awaits
        is over;
      - [Settled id now]: the promise [fn()] of request [id] has settled and
        the [finally] block runs. *)
Module RateLimiter.

Record Limiter := mkLimiter {
  queue : list nat;          (* the queued [run] closures, by request *)
  running : nat;
  maxConcurrent : nat;
  minDelayMs : Z;
  lastRequestTime : Z
}.

Record World := mkWorld {
  limiter : Limiter;
  sleeping : list (nat * Z); (* requests awaiting [sleep], with the time due *)
  inflight : list nat;       (* requests whose [fn()] is pending *)
  dispatches : list (nat * Z); (* [fn()] calls: request, time; latest first *)
  time : Z                   (* the time of the latest event *)
}.

Inductive Event :=
| Execute (id : nat) (now : Z)
| TimerFired (id : nat) (now : Z)
| Settled (id : nat) (now : Z).

Definition eventTime (e : Event) : Z :=
  match e with
  | Execute _ now | TimerFired _ now | Settled _ now => now
  end.

(** [new RateLimiter(maxConcurrent, minDelayMs)] *)
Definition create (maxConcurrent : nat) (minDelayMs : Z) : World :=
  mkWorld (mkLimiter [] 0 maxConcurrent minDelayMs 0) [] [] [] 0.

(** [this.running++; this.lastRequestTime = Date.now(); ... await fn()] *)
Definition dispatch (id : nat) (now : Z) (w : World) : World :=
  let l := limiter w in
  mkWorld
    (mkLimiter (queue l) (S (running l)) (maxConcurrent l) (minDelayMs l) now)
    (sleeping w) (id :: inflight w) ((id, now) :: dispatches w) (time w).

(** The closure [run] up to its first [await]. *)
Definition run (id : nat) (now : Z) (w : World) : World :=
  let l := limiter w in
  let timeSinceLastRequest := (now - lastRequestTime l)%Z in
  if (timeSinceLastRequest <? minDelayMs l)%Z
  then
    mkWorld l
      ((id, (now + (minDelayMs l - timeSinceLastRequest))%Z) :: sleeping w)
      (inflight w) (dispatches w) (time w)
  else dispatch id now w.

(** [if (this.running < this.maxConcurrent) run(); else this.queue.push(run)] *)
Definition execute (id : nat) (now : Z) (w : World) : World :=
  let l := limiter w in
  if (running l <? maxConcurrent l)%nat then run id now w
  else
    mkWorld
      (mkLimiter (queue l ++ [id]) (running l) (maxConcurrent l)
         (minDelayMs l) (lastRequestTime l))
      (sleeping w) (inflight w) (dispatches w) (time w).

Definition processQueue (now : Z) (w : World) : World :=
  let l := limiter w in
  match queue l with
  | next :: rest =>
      if (running l <? maxConcurrent l)%nat then
        run next now
          (mkWorld
             (mkLimiter rest (running l) (maxConcurrent l) (minDelayMs l)
                (lastRequestTime l))
             (sleeping w) (inflight w) (dispatches w) (time w))
      else w
  | [] => w
  end.

(** [finally { this.running--; this.processQueue(); }] *)
Definition settle (id : nat) (now : Z) (w : World) : World :=
  let l := limiter w in
  processQueue now
    (mkWorld
       (mkLimiter (queue l) (running l - 1) (maxConcurrent l) (minDelayMs l)
          (lastRequestTime l))
       (sleeping w) (List.filter (fun j => negb (j =? id)%nat) (inflight w))
       (dispatches w) (time w)).

Definition dueTime (id : nat) (w : World) : option Z :=
  snd <$> List.find (fun p => (fst p =? id)%nat) (sleeping w).

Definition at_time (now : Z) (w : World) : World :=
  mkWorld (limiter w) (sleeping w) (inflight w) (dispatches w) now.

(** One event; [None] when the event cannot happen in [w]: time does not run
    backwards, a timer fires no earlier than it is due, and only a pending
    request settles. *)
Definition step (e : Event) (w : World) : option World :=
  if (eventTime e <? time w)%Z then None
  else
    match e with
    | Execute id now => Some (execute id now (at_time now w))
    | TimerFired id now =>
        match dueTime id w with
        | Some due =>
            if (now <? due)%Z then None
            else
              Some (dispatch id now
                      (mkWorld (limiter w)
                         (List.filter (fun p => negb (fst p =? id)%nat)
                            (sleeping w))
                         (inflight w) (dispatches w) now))
        | None => None
        end
    | Settled id now =>
        if existsb (fun j => (j =? id)%nat) (inflight w)
        then Some (settle id now (at_time now w))
        else None
    end.

Fixpoint steps (es : list Event) (w : World) : option World :=
  match es with
  | [] => Some w
  | e :: es' =>
      match step e w with
      | Some w' => steps es' w'
      | None => None
      end
  end.

(** The least distance in time between two dispatches of a log. *)
Fixpoint minGap (log : list (nat * Z)) : option Z :=
  match log with
  | (_, t1) :: (((_, t0) :: _) as rest) =>
      match minGap rest with
      | Some g => Some (Z.min g (t1 - t0))
      | None => Some (t1 - t0)%Z
      end
  | _ => None
  end.

(** The requests of the [Execute] events of a run, in order. *)
Fixpoint executed (es : list Event) : list nat :=
  match es with
  | [] => []
  | Execute id _ :: es' => id :: executed es'
  | _ :: es' => executed es'
  end.

(** What a limiter created with a minimum delay of at most 0 keeps: nothing
    sleeps, the running count is at most the cap and at the cap while
    requests are queued, and the requests dispatched so far, followed by the
    queue, are the requests [xs] in order. *)
Definition noDelayInvariant (maxC : nat) (delay : Z) (xs : list nat)
    (w : World) : Prop :=
  maxConcurrent (limiter w) = maxC
  /\ minDelayMs (limiter w) = delay
  /\ sleeping w = []
  /\ (lastRequestTime (limiter w) <= time w)%Z
  /\ running (limiter w) <= maxC
  /\ (queue (limiter w) <> [] -> running (limiter w) = maxC)
  /\ map fst (rev (dispatches w)) ++ queue (limiter w) = xs.

End RateLimiter.

(* ===================================================================== *)
(** * Fetching with retries ([mexc-api.ts]) *)
(* ===================================================================== *)

(** [fetchWithRetry] awaits [fetch(url)] up to [retries] times.  What the
    [i]-th call of [fetch] settles to is given by [fetch i]; the function
    returns how the promise settles, the [sleep] durations it awaited, in
    order, and the number of [fetch] calls it made. *)
Module Acquisition.

Record Response := mkResponse {
  ok : bool;
  status : Z;
  statusText : string
}.

Inductive Error :=
| HttpError (status : Z) (statusText : string)
      (* [new Error(`HTTP ${status}: ${statusText}`)] *)
| FetchRejected (reason : string)   (* what [fetch] rejected with *)
| FailedAfterRetries.               (* [new Error('Failed after retries')] *)

Inductive FetchResult :=
| Resolved (response : Response)
| Rejected (error : Error).

Inductive Settlement :=
| Returned (response : Response)
| Threw (error : Error).

Record Run := mkRun {
  settlement : Settlement;
  sleeps : list Z;
  calls : nat
}.

(** The loop [for (let i = 0; i < retries; i++)]; [remaining] is
    [retries - i]. *)
Fixpoint retryLoop (fetch : nat -> FetchResult) (remaining i : nat)
    (lastError : option Error) (slept : list Z) : Run :=
  match remaining with
  | O =>
      mkRun
        (Threw (match lastError with
                | Some e => e
                | None => FailedAfterRetries
                end))
        slept i
  | S remaining' =>
      match fetch i with
      | Resolved response =>
          if ok response then mkRun (Returned response) slept (S i)
          else if (status response =? 429)%Z then
            retryLoop fetch remaining' (S i) lastError
              (slept ++ [(1000 * (Z.of_nat i + 1))%Z])
          else
            retryLoop fetch remaining' (S i)
              (Some (HttpError (status response) (statusText response)))
              (slept ++ [(500 * (Z.of_nat i + 1))%Z])
      | Rejected error =>
          retryLoop fetch remaining' (S i) (Some error)
            (slept ++ [(500 * (Z.of_nat i + 1))%Z])
      end
  end.

(** [fetchWithRetry(url, retries = 3)] *)
Definition fetchWithRetry (fetch : nat -> FetchResult) (retries : nat) : Run :=
  retryLoop fetch retries 0 None [].

(** The error the [catch] block of an attempt stores in [lastError]: none
    for a response that is [ok] or has status 429. *)
Definition caught (r : FetchResult) : option Error :=
  match r with
  | Resolved response =>
      if ok response then None
      else if (status response =? 429)%Z then None
      else Some (HttpError (status response) (statusText response))
  | Rejected error => Some error
  end.

(** The [sleep] after a failed attempt [i]: [1000 * (i + 1)] after a 429,
    [500 * (i + 1)] after any other failure. *)
Definition backoff (fetch : nat -> FetchResult) (i : nat) : Z :=
  match caught (fetch i) with
  | None => (1000 * (Z.of_nat i + 1))%Z
  | Some _ => (500 * (Z.of_nat i + 1))%Z
  end.

(** The error caught last among the attempts [i .. i + n - 1], looking from
    the last attempt backwards. *)
Fixpoint lastCaughtIn (fetch : nat -> FetchResult) (i n : nat)
    : option Error :=
  match n with
  | O => None
  | S n' =>
      match caught (fetch (i + n')) with
      | Some e => Some e
      | None => lastCaughtIn fetch i n'
      end
  end.

(** Attempt [i] did not return an [ok] response. *)
Definition failed (fetch : nat -> FetchResult) (i : nat) : Prop :=
  forall response, fetch i = Resolved response -> ok response = false.

End Acquisition.

(* ===================================================================== *)
(** * The specification's words, as definitions *)
(* ===================================================================== *)

Module Spec.
Import Indicators BackburnerDetector.

(** Float comparisons as propositions. *)
Definition flt (a b : float) : Prop := (a <? b)%float = true.
Definition fle (a b : float) : Prop := (a <=? b)%float = true.

(** ** Oscillator (section 4.1) *)

Definition closeAt (candles : list Candle) (i : nat) : float :=
  match candles !! i with
  | Some c => close c
  | None => 0%float
  end.

(** The gain and the loss magnitude of the [i]-th close-to-close change. *)
Definition gainAt (candles : list Candle) (i : nat) : float :=
  let change := (closeAt candles (i + 1) - closeAt candles i)%float in
  if (0 <? change)%float then change else 0%float.

Definition lossAt (candles : list Candle) (i : nat) : float :=
  let change := (closeAt candles (i + 1) - closeAt candles i)%float in
  if (change <? 0)%float then PrimFloat.abs change else 0%float.

(** The arithmetic mean of the first [p] samples, added left to right. *)
Definition seedAverage (x : nat -> float) (p : nat) : float :=
  (fold_left PrimFloat.add (map x (seq 0 p)) 0 / nat_to_float p)%float.

(** The average behind the [i]-th oscillator sample:
    [avg' = (avg * (p - 1) + newSample) / p]. *)
Fixpoint wilderAverage (x : nat -> float) (p i : nat) : float :=
  match i with
  | O => seedAverage x p
  | S i' =>
      ((wilderAverage x p i' * (nat_to_float p - 1) + x (p + i')%nat)
         / nat_to_float p)%float
  end.

Definition oscillator (avgGain avgLoss : float) : float :=
  if (avgLoss =? 0)%float then 100%float
  else (100 - 100 / (1 + avgGain / avgLoss))%float.

(** ** Extrema (section 4.1): first occurrence of the greatest high, of the
    least low. *)

Definition firstHighest (w : list Candle) (i : nat) : Prop :=
  exists c, w !! i = Some c
    /\ (forall j cj, w !! j = Some cj -> fle (high cj) (high c))
    /\ (forall j cj, j < i -> w !! j = Some cj -> flt (high cj) (high c)).

Definition firstLowest (w : list Candle) (i : nat) : Prop :=
  exists c, w !! i = Some c
    /\ (forall j cj, w !! j = Some cj -> fle (low c) (low cj))
    /\ (forall j cj, j < i -> w !! j = Some cj -> flt (low c) (low cj)).

(** No high or low of the window is NaN. *)
Definition pricesAreNumbers (w : list Candle) : Prop :=
  forall c, c ∈ w ->
    PrimFloat.is_nan (high c) = false /\ PrimFloat.is_nan (low c) = false.

Definition highAt (w : list Candle) (i : nat) : float :=
  match w !! i with Some c => high c | None => 0%float end.

Definition lowAt (w : list Candle) (i : nat) : float :=
  match w !! i with Some c => low c | None => 0%float end.

(** ** Setup state machine (section 4.3) *)

Definition live (st : SetupState) : Prop :=
  st = triggered \/ st = deep_oversold \/ st = bouncing.

(** The progression table, keyed on the previous state. *)
Definition progressionTable (config : Config) (prev : SetupState)
    (rsi : float) : SetupState :=
  if (rsi <? rsiDeepOversoldThreshold config)%float then deep_oversold
  else if (rsi <? rsiOversoldThreshold config)%float then triggered
  else
    match prev with
    | triggered | deep_oversold =>
        if (40 <? rsi)%float then played_out else bouncing
    | bouncing => if (50 <? rsi)%float then played_out else bouncing
    | watching => watching
    | played_out => played_out
    end.

(** None of the three invalidation rules applies. *)
Definition notInvalidated (config : Config) (setup : BackburnerSetup)
    (price rsi : float) : Prop :=
  (price <? impulseLow setup)%float = false
  /\ ((state setup = triggered \/ state setup = deep_oversold) ->
      (impulseHigh setup * 0.99 <=? price)%float = false)
  /\ (state setup = bouncing ->
      (rsi <? rsiOversoldThreshold config)%float = false).

(** Oscillator samples at or after a time that are below the oversold
    threshold. *)
Definition oversoldSamplesSince (config : Config)
    (rsiValues : list RSIResult) (since : Z) : nat :=
  length
    (List.filter
       (fun r => (since <=? rsi_timestamp r)%Z
                 && (value r <? rsiOversoldThreshold config)%float)
       rsiValues).

(** Volume contraction of an impulse that lies at the positions
    [first .. last] of the candle series: mean volume of the candles strictly
    after [last] below 80% of the mean volume of the candles [first .. last];
    false when either interval is empty. *)
Definition meanVolume (cs : list Candle) : float :=
  (sumVolume cs / nat_to_float (length cs))%float.

Definition volumeContraction (candles : list Candle) (first last : nat)
    : bool :=
  let impulseInterval := slice first (last + 1) candles in
  let pullback := drop (last + 1) candles in
  match impulseInterval, pullback with
  | [], _ | _, [] => false
  | _, _ => (meanVolume pullback <? meanVolume impulseInterval * 0.8)%float
  end.

(** ** Public operations on the live set *)

Inductive Op :=
| OpAnalyze (clock : nat -> Z) (sym : string) (tf : Timeframe)
    (candles : list Candle) (higherTFCandles : option (list Candle))
| OpRemove (sym : string) (tf : Timeframe)
| OpClear.

Definition applyOp (config : Config) (op : Op)
    (activeSetups : gmap string BackburnerSetup)
    : gmap string BackburnerSetup :=
  match op with
  | OpAnalyze clock sym tf candles htf =>
      match analyzeSymbol config clock sym tf candles htf activeSetups with
      | Ok (_, activeSetups') => activeSetups'
      | TypeError => activeSetups
      end
  | OpRemove sym tf => removeSetup sym tf activeSetups
  | OpClear => clearAllSetups activeSetups
  end.

Definition runOps (config : Config) (ops : list Op)
    (activeSetups : gmap string BackburnerSetup)
    : gmap string BackburnerSetup :=
  fold_left (fun m op => applyOp config op m) ops activeSetups.

(** Every record is held at its own key and is live. *)
Definition storeInvariant (activeSetups : gmap string BackburnerSetup)
    : Prop :=
  forall k r, activeSetups !! k = Some r ->
    k = getSetupKey (symbol r) (timeframe r) /\ live (state r).

End Spec.

(* ===================================================================== *)
(** * Concrete inputs *)
(* ===================================================================== *)

Module Examples.
Import Indicators BackburnerDetector.

(** Oversold below 30, deep oversold below 20, oscillator period 14,
    impulses of at least 5 percent. *)
Definition config : Config := mkConfig 14 30 20 5.

Definition clock (n : nat) : Z := (1700000000000 + Z.of_nat n)%Z.

Definition candle (i : nat) (o h l c v : nat) : Candle :=
  mkCandle (Z.of_nat i) (nat_to_float o) (nat_to_float h) (nat_to_float l)
    (nat_to_float c) (nat_to_float v).

(** 50 candles: the lowest low (50) at index 0, the highest high (120) at
    index 40, closes flat at 100 up to index 40 and falling by 1 per candle
    from index 41 on. *)
Definition impulseThenFall (i : nat) : Candle :=
  if (i =? 0)%nat then candle i 100 101 50 100 10
  else if (i <? 40)%nat then candle i 100 101 99 100 10
  else if (i =? 40)%nat then candle i 100 120 99 100 10
  else candle i (141 - i) (141 - i) (140 - i) (140 - i) 10.

Definition repeatedOversold : list Candle := map impulseThenFall (seq 0 50).

(** 51 candles: the 50 above, shifted by one position, after a first candle
    of volume 1000. *)
Definition longSeries : list Candle :=
  candle 0 100 101 99 100 1000
    :: map (fun i =>
              let c := impulseThenFall i in
              mkCandle (Z.of_nat (S i)) (open c) (high c) (low c) (close c)
                (volume c))
         (seq 0 50).

(** 50 candles with falling closes, the lowest low (50) at index 0 and the
    highest high (200) at the last candle. *)
Definition impulseAtEnd (i : nat) : Candle :=
  if (i =? 0)%nat then candle i 150 151 50 150 10
  else if (i <? 49)%nat then candle i (151 - i) (151 - i) (150 - i) (150 - i) 10
  else candle i 102 200 100 101 10.

Definition endsAtLastCandle : list Candle := map impulseAtEnd (seq 0 50).

(** 51 candles: the 50 above, shifted by one position, after a first candle
    that closes at 151; the impulse still ends at the last candle. *)
Definition endsAtLastOf51 : list Candle :=
  candle 0 152 152 151 151 10
    :: map (fun i =>
              let c := impulseAtEnd i in
              mkCandle (Z.of_nat (S i)) (open c) (high c) (low c) (close c)
                (volume c))
         (seq 0 50).

(** 50 candles with closes rising by 1 per candle from 100. *)
Definition rising : list Candle :=
  map (fun i => candle i (100 + i) (101 + i) (100 + i) (101 + i) 10)
    (seq 0 50).

(** A record of an impulse from 50 to 200 (from 95 to 200), in a given
    state. *)
Definition record (st : SetupState) (impulseLow : float) : BackburnerSetup :=
  mkSetup "BTCUSDT" TF_5m st 200 impulseLow 0 40 300 25 25 100
    (Some 100%float) 1 (Some 1%Z) 1 10 10 false None.

Definition store (st : SetupState) (impulseLow : float)
    : gmap string BackburnerSetup :=
  <["BTCUSDT-5m" := record st impulseLow]> ∅.

(** Four candles; among the last three the lowest low is at position 0 and
    the highest high at position 2. *)
Definition fourCandles : list Candle :=
  [candle 0 10 400 1 10 1; candle 1 100 110 90 100 1;
   candle 2 100 120 95 110 1; candle 3 110 150 100 120 1].

(** Twenty requests submitted in one synchronous batch at time 1000000, then
    the nineteen timers of those that slept, all firing at 1000050. *)
Definition twentyAtOnce : list RateLimiter.Event :=
  map (fun i => RateLimiter.Execute i 1000000) (seq 0 20)
  ++ map (fun i => RateLimiter.TimerFired i 1000050) (seq 1 19).

(** A limiter without delay and cap 2: three requests at time 5, the first
    settling at time 9. *)
Definition threeRequests : list RateLimiter.Event :=
  [RateLimiter.Execute 0 5; RateLimiter.Execute 1 5;
   RateLimiter.Execute 2 5; RateLimiter.Settled 0 9].

(** A server that is rate limited at the first call, fails with status 500
    at the second and answers at the third. *)
Definition thirdTimeLucky (i : nat) : Acquisition.FetchResult :=
  match i with
  | 0 => Acquisition.Resolved
           (Acquisition.mkResponse false 429 "Too Many Requests")
  | 1 => Acquisition.Resolved
           (Acquisition.mkResponse false 500 "Internal Server Error")
  | _ => Acquisition.Resolved (Acquisition.mkResponse true 200 "OK")
  end.

(** A server that fails with status 500 once and is rate limited ever
    after. *)
Definition rateLimited (i : nat) : Acquisition.FetchResult :=
  match i with
  | 0 => Acquisition.Resolved
           (Acquisition.mkResponse false 500 "Internal Server Error")
  | _ => Acquisition.Resolved
           (Acquisition.mkResponse false 429 "Too Many Requests")
  end.

(** Four oscillator samples: 45, 35, 31 and 28. *)
Definition crossing : list RSIResult :=
  [mkRSI 45 0; mkRSI 35 1; mkRSI 31 2; mkRSI 28 3].

End Examples.

(* ===================================================================== *)
(** * Order of floats *)
(* ===================================================================== *)

(** The comparisons of binary64 values, through their specification
    ([SFcompare]): the facts the extrema scans rest on. *)
Section FloatOrder.

Ltac sf_compare_cases :=
  repeat match goal with
  | |- context [(?a ?= ?b)%Z] => destruct (Z.compare_spec a b)
  | |- context [Pos.compare_cont Eq ?a ?b] =>
      change (Pos.compare_cont Eq a b) with (Pos.compare a b);
      destruct (Pos.compare_spec a b)
  end.

Ltac sf_order :=
  unfold SFeqb, SFleb, SFltb, SFcompare;
  repeat match goal with
  | x : spec_float |- _ => destruct x
  | b : bool |- _ => destruct b
  end;
  simpl; try (intros; congruence);
  sf_compare_cases; simpl; intros; subst; try congruence; try lia.

Lemma SFleb_ltb_trans a b c :
  SFleb a b = true -> SFltb b c = true -> SFltb a c = true.
Proof. sf_order. Qed.

Lemma SFltb_leb_trans a b c :
  SFltb a b = true -> SFleb b c = true -> SFltb a c = true.
Proof. sf_order. Qed.

Lemma SFltb_leb a b : SFltb a b = true -> SFleb a b = true.
Proof. sf_order. Qed.

Lemma SFltb_false_leb a b :
  a <> S754_nan -> b <> S754_nan -> SFltb a b = false -> SFleb b a = true.
Proof. sf_order. Qed.

Lemma SFleb_refl a : a <> S754_nan -> SFleb a a = true.
Proof. sf_order. Qed.

Lemma SFltb_leb_false a b : SFltb a b = true -> SFleb b a = false.
Proof. sf_order. Qed.

Lemma SFeqb_refl_nan a : SFeqb a a = false -> a = S754_nan.
Proof. sf_order. Qed.

Lemma is_nan_false x : PrimFloat.is_nan x = false -> Prim2SF x <> S754_nan.
Proof.
  unfold PrimFloat.is_nan. rewrite FloatAxioms.eqb_spec.
  intros H E. rewrite E in H. discriminate.
Qed.

Lemma fle_flt_trans a b c : Spec.fle a b -> Spec.flt b c -> Spec.flt a c.
Proof.
  unfold Spec.fle, Spec.flt.
  rewrite FloatAxioms.leb_spec, !FloatAxioms.ltb_spec.
  apply SFleb_ltb_trans.
Qed.

Lemma flt_fle_trans a b c : Spec.flt a b -> Spec.fle b c -> Spec.flt a c.
Proof.
  unfold Spec.fle, Spec.flt.
  rewrite FloatAxioms.leb_spec, !FloatAxioms.ltb_spec.
  apply SFltb_leb_trans.
Qed.

Lemma flt_fle a b : Spec.flt a b -> Spec.fle a b.
Proof.
  unfold Spec.fle, Spec.flt.
  rewrite FloatAxioms.leb_spec, FloatAxioms.ltb_spec. apply SFltb_leb.
Qed.

Lemma not_flt_fle a b :
  PrimFloat.is_nan a = false -> PrimFloat.is_nan b = false ->
  (a <? b)%float = false -> Spec.fle b a.
Proof.
  intros Ha Hb. unfold Spec.fle.
  rewrite FloatAxioms.leb_spec, FloatAxioms.ltb_spec.
  apply SFltb_false_leb; by apply is_nan_false.
Qed.

Lemma fle_refl a : PrimFloat.is_nan a = false -> Spec.fle a a.
Proof.
  intros Ha. unfold Spec.fle. rewrite FloatAxioms.leb_spec.
  by apply SFleb_refl, is_nan_false.
Qed.

Lemma flt_not_fle a b : Spec.flt a b -> (b <=? a)%float = false.
Proof.
  unfold Spec.flt.
  rewrite FloatAxioms.leb_spec, FloatAxioms.ltb_spec.
  apply SFltb_leb_false.
Qed.

End FloatOrder.

(* ===================================================================== *)
(** * Lists *)
(* ===================================================================== *)

Lemma map_lookup {A B} (f : A -> B) (l : list A) (i : nat) :
  map f l !! i = f <$> (l !! i).
Proof.
  revert i. induction l as [|a l IH]; intros [|i]; simpl; auto.
Qed.

Lemma take_tabulate {A} (f : nat -> A) (l : list A) (p : nat) :
  (forall i, i < p -> l !! i = Some (f i)) ->
  take p l = map f (seq 0 p).
Proof.
  intros H. apply list_eq. intros i.
  rewrite map_lookup.
  destruct (decide (i < p)) as [Hi|Hi].
  - rewrite lookup_take_lt by done. rewrite H by done.
    rewrite lookup_seq_lt by done. done.
  - rewrite lookup_take_ge by lia.
    rewrite lookup_seq_ge by lia. done.
Qed.

(* ===================================================================== *)
(** * The oscillator *)
(* ===================================================================== *)

Section Oscillator.
Import Indicators.

Lemma closeChanges_length candles :
  length (closeChanges candles) = length candles - 1.
Proof.
  induction candles as [|c0 tl IH]; [done|].
  destruct tl as [|c1 tl]; [done|].
  change (S (length (closeChanges (c1 :: tl))) = length (c0 :: c1 :: tl) - 1).
  rewrite IH. simpl. lia.
Qed.

Lemma closeChanges_lookup candles i a b :
  candles !! i = Some a -> candles !! (S i) = Some b ->
  closeChanges candles !! i = Some (close b - close a)%float.
Proof.
  revert i. induction candles as [|c0 tl IH]; intros i Ha Hb; [done|].
  destruct tl as [|c1 tl]; [done|].
  destruct i as [|i].
  - simpl in *. by simplify_eq.
  - change (closeChanges (c1 :: tl) !! i = Some (close b - close a)%float).
    by apply IH.
Qed.

Lemma closeAt_lookup candles i c :
  candles !! i = Some c -> Spec.closeAt candles i = close c.
Proof. unfold Spec.closeAt. by intros ->. Qed.

Lemma gains_lookup candles i :
  S i < length candles ->
  map gainOf (closeChanges candles) !! i = Some (Spec.gainAt candles i).
Proof.
  intros Hi.
  destruct (lookup_lt_is_Some_2 candles i) as [a Ha]; [lia|].
  destruct (lookup_lt_is_Some_2 candles (S i)) as [b Hb]; [lia|].
  rewrite map_lookup, (closeChanges_lookup _ _ _ _ Ha Hb). simpl.
  unfold Spec.gainAt, gainOf.
  replace (i + 1) with (S i) by lia.
  by rewrite (closeAt_lookup _ _ _ Ha), (closeAt_lookup _ _ _ Hb).
Qed.

Lemma losses_lookup candles i :
  S i < length candles ->
  map lossOf (closeChanges candles) !! i = Some (Spec.lossAt candles i).
Proof.
  intros Hi.
  destruct (lookup_lt_is_Some_2 candles i) as [a Ha]; [lia|].
  destruct (lookup_lt_is_Some_2 candles (S i)) as [b Hb]; [lia|].
  rewrite map_lookup, (closeChanges_lookup _ _ _ _ Ha Hb). simpl.
  unfold Spec.lossAt, lossOf.
  replace (i + 1) with (S i) by lia.
  by rewrite (closeAt_lookup _ _ _ Ha), (closeAt_lookup _ _ _ Hb).
Qed.

Lemma wilderLoop_length pf ag al gs ls cs :
  length gs = length cs -> length ls = length cs ->
  length (wilderLoop pf ag al gs ls cs) = length cs.
Proof.
  revert ag al ls cs.
  induction gs as [|g gs IH]; intros ag al [|l ls] [|c cs] Hg Hl;
    simpl in *; try done.
  rewrite IH; auto.
Qed.

Lemma wilderLoop_lookup (x y : nat -> float) (p : nat) gs :
  forall ls cs s k c,
    (forall j, j < length gs -> gs !! j = Some (x (p + s + j))) ->
    (forall j, j < length gs -> ls !! j = Some (y (p + s + j))) ->
    k < length gs ->
    cs !! k = Some c ->
    wilderLoop (nat_to_float p) (Spec.wilderAverage x p s)
      (Spec.wilderAverage y p s) gs ls cs !! k
    = Some (mkRSI (Spec.oscillator (Spec.wilderAverage x p (s + S k))
                     (Spec.wilderAverage y p (s + S k)))
              (timestamp c)).
Proof.
  induction gs as [|g gs IH]; intros ls cs s k c Hx Hy Hk Hc.
  { simpl in Hk. lia. }
  destruct ls as [|l ls].
  { specialize (Hy 0). simpl in Hy. discriminate Hy. lia. }
  destruct cs as [|c0 cs]; [done|].
  pose proof (Hx 0 ltac:(simpl; lia)) as Hx0.
  pose proof (Hy 0 ltac:(simpl; lia)) as Hy0.
  simpl in Hx0, Hy0. replace (p + s + 0) with (p + s) in * by lia.
  injection Hx0 as ->. injection Hy0 as ->.
  simpl wilderLoop.
  change (smooth (nat_to_float p) (Spec.wilderAverage x p s) (x (p + s)))
    with (Spec.wilderAverage x p (S s)).
  change (smooth (nat_to_float p) (Spec.wilderAverage y p s) (y (p + s)))
    with (Spec.wilderAverage y p (S s)).
  destruct k as [|k].
  - simpl in Hc. injection Hc as ->.
    replace (s + 1) with (S s) by lia. done.
  - rewrite lookup_cons_ne_0 by done. rewrite lookup_cons_ne_0 in Hc by done.
    replace (s + S (S k)) with (S s + S k) by lia.
    apply IH; [| |simpl in Hk; lia|done].
    + intros j Hj. specialize (Hx (S j) ltac:(simpl; lia)). simpl in Hx.
      rewrite Hx. f_equal. f_equal. lia.
    + intros j Hj. specialize (Hy (S j) ltac:(simpl; lia)). simpl in Hy.
      rewrite Hy. f_equal. f_equal. lia.
Qed.

End Oscillator.

Section OscillatorSpec.
Import Indicators.

Lemma seed_is_mean (x : nat -> float) (xs : list float) (p : nat) :
  (forall i, i < p -> xs !! i = Some (x i)) ->
  (sum (slice 0 p xs) / nat_to_float p)%float = Spec.seedAverage x p.
Proof.
  intros H. unfold sum, slice, Spec.seedAverage.
  rewrite drop_0, Nat.sub_0_r. by rewrite (take_tabulate x).
Qed.

(** C6.  [calculateRSI] returns no sample for fewer than [p + 1] candles;
    otherwise it returns [n - p] samples, the [i]-th stamped with the time of
    candle [p + i] and valued by the oscillator formula on the Wilder
    averages of the gains and of the losses: seeded with the mean of the
    first [p], then [(avg * (p - 1) + new) / p]. *)
Theorem calculateRSI_spec (candles : list Candle) (p : nat) :
  (length candles < p + 1 -> calculateRSI candles p = [])
  /\ (p + 1 <= length candles ->
      length (calculateRSI candles p) = length candles - p
      /\ forall i c, candles !! (p + i) = Some c ->
           calculateRSI candles p !! i
           = Some (mkRSI
                     (Spec.oscillator
                        (Spec.wilderAverage (Spec.gainAt candles) p i)
                        (Spec.wilderAverage (Spec.lossAt candles) p i))
                     (timestamp c))).
Proof.
  split.
  - intros Hn. unfold calculateRSI.
    by destruct (Nat.ltb_spec (length candles) (p + 1)); [|lia].
  - intros Hn. unfold calculateRSI.
    destruct (Nat.ltb_spec (length candles) (p + 1)) as [?|_]; [lia|].
    destruct (lookup_lt_is_Some_2 candles p) as [c0 Hc0]; [lia|].
    rewrite (drop_S _ _ _ Hc0).
    assert (Hg : forall i, S i < length candles ->
              map gainOf (closeChanges candles) !! i
              = Some (Spec.gainAt candles i))
      by (intros; by apply gains_lookup).
    assert (Hl : forall i, S i < length candles ->
              map lossOf (closeChanges candles) !! i
              = Some (Spec.lossAt candles i))
      by (intros; by apply losses_lookup).
    rewrite (seed_is_mean (Spec.gainAt candles))
      by (intros; apply Hg; lia).
    rewrite (seed_is_mean (Spec.lossAt candles))
      by (intros; apply Hl; lia).
    change (Spec.seedAverage (Spec.gainAt candles) p)
      with (Spec.wilderAverage (Spec.gainAt candles) p 0).
    change (Spec.seedAverage (Spec.lossAt candles) p)
      with (Spec.wilderAverage (Spec.lossAt candles) p 0).
    assert (Hlen : length (drop p (map gainOf (closeChanges candles)))
                   = length (drop (S p) candles)).
    { rewrite !length_drop, length_map, closeChanges_length. lia. }
    assert (Hlen' : length (drop p (map lossOf (closeChanges candles)))
                    = length (drop (S p) candles)).
    { rewrite !length_drop, length_map, closeChanges_length. lia. }
    split.
    + cbn [length]. rewrite wilderLoop_length by done.
      rewrite length_drop. lia.
    + intros [|k] c Hc.
      * replace (p + 0) with p in Hc by lia.
        rewrite Hc0 in Hc. injection Hc as ->. done.
      * rewrite lookup_cons_ne_0 by done. cbn [Nat.pred].
        rewrite (wilderLoop_lookup (Spec.gainAt candles)
                   (Spec.lossAt candles) p _ _ _ 0 k c).
        -- done.
        -- intros j Hj. rewrite lookup_drop. rewrite Hg; [do 2 f_equal; lia|].
           rewrite Hlen, length_drop in Hj. lia.
        -- intros j Hj. rewrite lookup_drop. rewrite Hl; [do 2 f_equal; lia|].
           rewrite Hlen, length_drop in Hj. lia.
        -- rewrite Hlen. apply lookup_lt_Some with c.
           rewrite lookup_drop. rewrite <- Hc. f_equal. lia.
        -- rewrite lookup_drop. rewrite <- Hc. f_equal. lia.
Qed.

End OscillatorSpec.

(* ===================================================================== *)
(** * Extrema and structural moves *)
(* ===================================================================== *)

Section Extrema.
Import Indicators.

Lemma highestScan_spec rest :
  forall pre h hi,
    pre !! hi = Some h ->
    (forall j cj, pre !! j = Some cj -> Spec.fle (high cj) (high h)) ->
    (forall j cj, j < hi -> pre !! j = Some cj ->
       Spec.flt (high cj) (high h)) ->
    Spec.pricesAreNumbers (pre ++ rest) ->
    exists h', (pre ++ rest) !! (highestScan h hi (length pre) rest).2 = Some h'
      /\ (highestScan h hi (length pre) rest).1 = h'
      /\ Spec.firstHighest (pre ++ rest) (highestScan h hi (length pre) rest).2.
Proof.
  induction rest as [|c rest IH]; intros pre h hi Hh Hmax Hfirst Hnum.
  - simpl. rewrite app_nil_r. exists h. repeat split; try done.
    exists h. done.
  - assert (Hc : PrimFloat.is_nan (high c) = false).
    { apply Hnum. apply elem_of_app. right. left. }
    assert (Hhn : PrimFloat.is_nan (high h) = false).
    { apply Hnum. apply elem_of_app. left. by eapply list_elem_of_lookup_2. }
    assert (Hpre : pre ++ c :: rest = (pre ++ [c]) ++ rest)
      by (by rewrite <- app_assoc).
    assert (Hlen : S (length pre) = length (pre ++ [c]))
      by (rewrite length_app; simpl; lia).
    simpl. rewrite Hpre, Hlen.
    destruct (high h <? high c)%float eqn:Hlt.
    + apply IH.
      * by rewrite lookup_app_r, Nat.sub_diag by lia.
      * intros j cj Hj. apply lookup_app_Some in Hj as [Hj|[_ Hj]].
        -- apply flt_fle. eapply fle_flt_trans; [by eapply Hmax|done].
        -- apply list_lookup_singleton_Some in Hj as [_ <-].
           by apply fle_refl.
      * intros j cj Hlt' Hj.
        rewrite lookup_app_l in Hj by lia.
        eapply fle_flt_trans; [by eapply Hmax|done].
      * by rewrite <- Hpre.
    + apply IH.
      * by rewrite lookup_app_l by (by eapply lookup_lt_Some).
      * intros j cj Hj. apply lookup_app_Some in Hj as [Hj|[_ Hj]].
        -- by eapply Hmax.
        -- apply list_lookup_singleton_Some in Hj as [_ <-].
           by apply not_flt_fle.
      * intros j cj Hlt' Hj.
        assert (hi < length pre) by (by eapply lookup_lt_Some).
        rewrite lookup_app_l in Hj by lia.
        by eapply Hfirst.
      * by rewrite <- Hpre.
Qed.

Lemma lowestScan_spec rest :
  forall pre l li,
    pre !! li = Some l ->
    (forall j cj, pre !! j = Some cj -> Spec.fle (low l) (low cj)) ->
    (forall j cj, j < li -> pre !! j = Some cj -> Spec.flt (low l) (low cj)) ->
    Spec.pricesAreNumbers (pre ++ rest) ->
    exists l', (pre ++ rest) !! (lowestScan l li (length pre) rest).2 = Some l'
      /\ (lowestScan l li (length pre) rest).1 = l'
      /\ Spec.firstLowest (pre ++ rest) (lowestScan l li (length pre) rest).2.
Proof.
  induction rest as [|c rest IH]; intros pre l li Hl Hmin Hfirst Hnum.
  - simpl. rewrite app_nil_r. exists l. repeat split; try done.
    exists l. done.
  - assert (Hc : PrimFloat.is_nan (low c) = false).
    { apply Hnum. apply elem_of_app. right. left. }
    assert (Hln : PrimFloat.is_nan (low l) = false).
    { apply Hnum. apply elem_of_app. left. by eapply list_elem_of_lookup_2. }
    assert (Hpre : pre ++ c :: rest = (pre ++ [c]) ++ rest)
      by (by rewrite <- app_assoc).
    assert (Hlen : S (length pre) = length (pre ++ [c]))
      by (rewrite length_app; simpl; lia).
    simpl. rewrite Hpre, Hlen.
    destruct (low c <? low l)%float eqn:Hlt.
    + apply IH.
      * by rewrite lookup_app_r, Nat.sub_diag by lia.
      * intros j cj Hj. apply lookup_app_Some in Hj as [Hj|[_ Hj]].
        -- apply flt_fle. eapply flt_fle_trans; [done|by eapply Hmin].
        -- apply list_lookup_singleton_Some in Hj as [_ <-].
           by apply fle_refl.
      * intros j cj Hlt' Hj.
        rewrite lookup_app_l in Hj by lia.
        eapply flt_fle_trans; [done|by eapply Hmin].
      * by rewrite <- Hpre.
    + apply IH.
      * by rewrite lookup_app_l by (by eapply lookup_lt_Some).
      * intros j cj Hj. apply lookup_app_Some in Hj as [Hj|[_ Hj]].
        -- by eapply Hmin.
        -- apply list_lookup_singleton_Some in Hj as [_ <-].
           by apply not_flt_fle.
      * intros j cj Hlt' Hj.
        assert (li < length pre) by (by eapply lookup_lt_Some).
        rewrite lookup_app_l in Hj by lia.
        by eapply Hfirst.
      * by rewrite <- Hpre.
Qed.

Lemma firstHighest_unique w i i' :
  Spec.firstHighest w i -> Spec.firstHighest w i' -> i = i'.
Proof.
  intros (c & Hc & Hmax & Hfirst) (c' & Hc' & Hmax' & Hfirst').
  destruct (Nat.lt_trichotomy i i') as [Hlt|[->|Hlt]]; [|done|].
  - pose proof (Hfirst' _ _ Hlt Hc) as H1.
    pose proof (Hmax _ _ Hc') as H2.
    apply flt_not_fle in H1. unfold Spec.fle in H2. congruence.
  - pose proof (Hfirst _ _ Hlt Hc') as H1.
    pose proof (Hmax' _ _ Hc) as H2.
    apply flt_not_fle in H1. unfold Spec.fle in H2. congruence.
Qed.

Lemma firstLowest_unique w i i' :
  Spec.firstLowest w i -> Spec.firstLowest w i' -> i = i'.
Proof.
  intros (c & Hc & Hmin & Hfirst) (c' & Hc' & Hmin' & Hfirst').
  destruct (Nat.lt_trichotomy i i') as [Hlt|[->|Hlt]]; [|done|].
  - pose proof (Hfirst' _ _ Hlt Hc) as H1.
    pose proof (Hmin _ _ Hc') as H2.
    apply flt_not_fle in H1. unfold Spec.fle in H2. congruence.
  - pose proof (Hfirst _ _ Hlt Hc') as H1.
    pose proof (Hmin' _ _ Hc) as H2.
    apply flt_not_fle in H1. unfold Spec.fle in H2. congruence.
Qed.

Lemma findHighestHigh_spec w i :
  Spec.pricesAreNumbers w -> Spec.firstHighest w i ->
  exists ts, findHighestHigh w = Ok (mkExtremum (Spec.highAt w i) i ts).
Proof.
  intros Hnum Hi. destruct w as [|c0 rest].
  { destruct Hi as (c & Hc & _). done. }
  unfold findHighestHigh.
  destruct (highestScan_spec rest [c0] c0 0) as (h' & Hh' & Hfst & Hfirst).
  - done.
  - intros [|j] cj Hj; [|done]. simpl in Hj. injection Hj as <-.
    apply fle_refl, Hnum. left.
  - intros j cj Hj. lia.
  - done.
  - simpl in Hh', Hfst, Hfirst.
    destruct (highestScan c0 0 1 rest) as [h k]. simpl in *. subst h'.
    assert (k = i) as -> by (by eapply firstHighest_unique).
    exists (timestamp h). unfold Spec.highAt. by rewrite Hh'.
Qed.

Lemma findLowestLow_spec w i :
  Spec.pricesAreNumbers w -> Spec.firstLowest w i ->
  exists ts, findLowestLow w = Ok (mkExtremum (Spec.lowAt w i) i ts).
Proof.
  intros Hnum Hi. destruct w as [|c0 rest].
  { destruct Hi as (c & Hc & _). done. }
  unfold findLowestLow.
  destruct (lowestScan_spec rest [c0] c0 0) as (l' & Hl' & Hfst & Hfirst).
  - done.
  - intros [|j] cj Hj; [|done]. simpl in Hj. injection Hj as <-.
    apply fle_refl, Hnum. left.
  - intros j cj Hj. lia.
  - done.
  - simpl in Hl', Hfst, Hfirst.
    destruct (lowestScan c0 0 1 rest) as [l k]. simpl in *. subst l'.
    assert (k = i) as -> by (by eapply firstLowest_unique).
    exists (timestamp l). unfold Spec.lowAt. by rewrite Hl'.
Qed.

(** The scans return an index of the array. *)
Lemma highestScan_index rest : forall h hi i,
  hi < i -> (highestScan h hi i rest).2 < i + length rest.
Proof.
  induction rest as [|c rest IH]; intros h hi i Hi; simpl; [lia|].
  destruct (high h <? high c)%float.
  - specialize (IH c i (S i)). lia.
  - specialize (IH h hi (S i)). lia.
Qed.

Lemma lowestScan_index rest : forall l li i,
  li < i -> (lowestScan l li i rest).2 < i + length rest.
Proof.
  induction rest as [|c rest IH]; intros l li i Hi; simpl; [lia|].
  destruct (low c <? low l)%float.
  - specialize (IH c i (S i)). lia.
  - specialize (IH l li (S i)). lia.
Qed.

End Extrema.

Section StructuralMove.
Import Indicators.

Lemma sliceLast_recent {A} (k : nat) (xs : list A) :
  0 < k -> sliceLast k xs = drop (length xs - k) xs.
Proof. unfold sliceLast. by destruct k; [lia|]. Qed.

Lemma firstHighest_exists w :
  w <> [] -> Spec.pricesAreNumbers w -> exists i, Spec.firstHighest w i.
Proof.
  intros Hne Hnum. destruct w as [|c0 rest]; [done|].
  destruct (highestScan_spec rest [c0] c0 0) as (h' & _ & _ & Hfirst).
  - done.
  - intros [|j] cj Hj; [|done]. simpl in Hj. injection Hj as <-.
    apply fle_refl, Hnum. left.
  - intros j cj Hj. lia.
  - done.
  - by eexists.
Qed.

Lemma firstLowest_exists w :
  w <> [] -> Spec.pricesAreNumbers w -> exists i, Spec.firstLowest w i.
Proof.
  intros Hne Hnum. destruct w as [|c0 rest]; [done|].
  destruct (lowestScan_spec rest [c0] c0 0) as (l' & _ & _ & Hfirst).
  - done.
  - intros [|j] cj Hj; [|done]. simpl in Hj. injection Hj as <-.
    apply fle_refl, Hnum. left.
  - intros j cj Hj. lia.
  - done.
  - by eexists.
Qed.

(** C5.  [detectImpulseMove] returns no move when fewer candles than the
    lookback are given.  Otherwise the most recent [lookback] candles have a
    first highest high, at [hi], and a first lowest low, at [lo]: for
    [lo < hi] and [(high - low) / low * 100] at least the threshold it
    returns the up move from [lo] to [hi]; for [hi < lo] and
    [(high - low) / high * 100] at least the threshold it returns the down
    move from [hi] to [lo]; for [hi = lo], or a magnitude below the
    threshold, it returns no move. *)
Theorem detectImpulseMove_spec (candles : list Candle) (threshold : float)
    (lookback : nat) :
  (length candles < lookback ->
   detectImpulseMove candles threshold lookback = Ok None)
  /\ (0 < lookback <= length candles ->
      Spec.pricesAreNumbers (drop (length candles - lookback) candles) ->
      exists hi lo,
        Spec.firstHighest (drop (length candles - lookback) candles) hi
        /\ Spec.firstLowest (drop (length candles - lookback) candles) lo)
  /\ (forall hi lo,
      lookback <= length candles ->
      let window := drop (length candles - lookback) candles in
      Spec.pricesAreNumbers window ->
      Spec.firstHighest window hi ->
      Spec.firstLowest window lo ->
      let highest := Spec.highAt window hi in
      let lowest := Spec.lowAt window lo in
      let upMove := ((highest - lowest) / lowest * 100)%float in
      let downMove := ((highest - lowest) / highest * 100)%float in
      (lo < hi -> Spec.fle threshold upMove ->
       detectImpulseMove candles threshold lookback
       = Ok (Some (mkImpulse lo hi lowest highest upMove up)))
      /\ (hi < lo -> Spec.fle threshold downMove ->
          detectImpulseMove candles threshold lookback
          = Ok (Some (mkImpulse hi lo highest lowest downMove down)))
      /\ (hi = lo ->
          detectImpulseMove candles threshold lookback = Ok None)
      /\ (lo < hi -> Spec.flt upMove threshold ->
          detectImpulseMove candles threshold lookback = Ok None)
      /\ (hi < lo -> Spec.flt downMove threshold ->
          detectImpulseMove candles threshold lookback = Ok None)).
Proof.
  split; [|split].
  - intros Hn. unfold detectImpulseMove.
    by destruct (Nat.ltb_spec (length candles) lookback); [|lia].
  - intros Hn Hnum.
    assert (Hne : drop (length candles - lookback) candles <> []).
    { intros E. apply (f_equal length) in E. rewrite length_drop in E.
      simpl in E. lia. }
    destruct (firstHighest_exists _ Hne Hnum) as [hi Hhi].
    destruct (firstLowest_exists _ Hne Hnum) as [lo Hlo].
    by exists hi, lo.
  - intros hi lo Hn window Hnum Hhi Hlo highest lowest upMove downMove.
    assert (Hpos : 0 < lookback).
    { destruct lookback; [|lia]. destruct Hhi as (c & Hc & _).
      subst window. rewrite Nat.sub_0_r, drop_all in Hc. done. }
    unfold detectImpulseMove.
    destruct (Nat.ltb_spec (length candles) lookback) as [?|_]; [lia|].
    rewrite sliceLast_recent by done. fold window.
    destruct (findHighestHigh_spec window hi Hnum Hhi) as [th ->].
    destruct (findLowestLow_spec window lo Hnum Hlo) as [tl ->].
    cbn [bind index price]. fold highest lowest upMove downMove.
    repeat split.
    + intros Hlt Hthr. unfold Spec.fle in Hthr.
      destruct (Nat.ltb_spec lo hi); [|lia]. by rewrite Hthr.
    + intros Hlt Hthr. unfold Spec.fle in Hthr.
      destruct (Nat.ltb_spec lo hi); [lia|].
      destruct (Nat.ltb_spec hi lo); [|lia]. by rewrite Hthr.
    + intros ->. by rewrite Nat.ltb_irrefl.
    + intros Hlt Hthr. apply flt_not_fle in Hthr.
      destruct (Nat.ltb_spec lo hi); [|lia]. rewrite Hthr.
      by destruct (Nat.ltb_spec hi lo); [lia|].
    + intros Hlt Hthr. apply flt_not_fle in Hthr.
      destruct (Nat.ltb_spec lo hi); [lia|].
      destruct (Nat.ltb_spec hi lo); [|lia]. by rewrite Hthr.
Qed.

(** With at least [lookback] candles and a positive lookback the detector
    raises nothing, and the indices of a move lie within the window. *)
Lemma detectImpulseMove_total candles threshold lookback :
  0 < lookback ->
  exists r, detectImpulseMove candles threshold lookback = Ok r
    /\ forall m, r = Some m ->
         lookback <= length candles
         /\ startIndex m < lookback /\ endIndex m < lookback.
Proof.
  intros Hpos. unfold detectImpulseMove.
  destruct (Nat.ltb_spec (length candles) lookback) as [?|Hn].
  { eexists. split; [done|]. intros m Hm. done. }
  rewrite sliceLast_recent by done.
  assert (Hlen : length (drop (length candles - lookback) candles) = lookback)
    by (rewrite length_drop; lia).
  destruct (drop (length candles - lookback) candles) as [|c0 rest] eqn:Hw.
  { simpl in Hlen. lia. }
  unfold findHighestHigh, findLowestLow.
  pose proof (highestScan_index rest c0 0 1 ltac:(lia)) as Hh.
  pose proof (lowestScan_index rest c0 0 1 ltac:(lia)) as Hl.
  destruct (highestScan c0 0 1 rest) as [h ih].
  destruct (lowestScan c0 0 1 rest) as [l il].
  simpl in Hlen, Hh, Hl. cbn [bind index price].
  destruct (il <? ih)%nat;
    [destruct (threshold <=? _)%float|];
    try (eexists; split; [done|]; intros m Hm; simplify_eq; simpl; lia);
    (destruct (ih <? il)%nat;
      [destruct (threshold <=? _)%float|];
      eexists; (split; [done|]); intros m Hm; simplify_eq; simpl; lia).
Qed.

End StructuralMove.

(* ===================================================================== *)
(** * The detector *)
(* ===================================================================== *)

Section DetectorFacts.
Import Indicators BackburnerDetector.

Variable config : Config.
Variable clock : nat -> Z.

Lemma at_index_last {A} (xs : list A) (x : A) :
  last xs = Some x -> at_index xs (length xs - 1) = Ok x.
Proof.
  rewrite last_lookup. unfold at_index.
  replace (length xs - 1) with (pred (length xs)) by lia. by intros ->.
Qed.

Lemma at_index_lt {A} (xs : list A) (i : nat) :
  i < length xs -> exists x, at_index xs i = Ok x.
Proof.
  intros Hi. destruct (lookup_lt_is_Some_2 xs i Hi) as [x Hx].
  exists x. unfold at_index. by rewrite Hx.
Qed.

Lemma isHigherTFBullish_total candles :
  exists b, isHigherTFBullish candles 20 = Ok b.
Proof.
  unfold isHigherTFBullish.
  destruct (Nat.ltb_spec (length candles) 20) as [?|Hn]; [by eexists|].
  destruct (last _); [|by eexists].
  destruct (at_index_lt candles (length candles - 1)) as [c ->]; [lia|].
  by eexists.
Qed.

(** With enough data [analyzeSymbol] is the update of the record at the key,
    or the detection of a new one. *)
Lemma analyzeSymbol_sufficient sym tf candles higherTFCandles activeSetups
    c rsi :
  50 <= length candles ->
  5 <= length (calculateRSI candles (rsiPeriod config)) ->
  last candles = Some c ->
  getCurrentRSI candles (rsiPeriod config) = Some rsi ->
  exists htf,
    analyzeSymbol config clock sym tf candles higherTFCandles activeSetups
    = match activeSetups !! getSetupKey sym tf with
      | Some setup =>
          updateExistingSetup config clock setup candles rsi (close c) htf
            activeSetups
      | None =>
          detectNewSetup config clock sym tf candles
            (calculateRSI candles (rsiPeriod config)) rsi (close c) htf
            activeSetups
      end.
Proof.
  intros Hn Hr Hc Hrsi. unfold analyzeSymbol.
  destruct (Nat.ltb_spec (length candles) 50) as [?|_]; [lia|].
  rewrite Hrsi.
  destruct (Nat.ltb_spec (length (calculateRSI candles (rsiPeriod config))) 5)
    as [?|_]; [lia|].
  rewrite (at_index_last _ _ Hc). cbn [bind].
  destruct higherTFCandles as [h|].
  - destruct (isHigherTFBullish_total h) as [b ->]. by exists (Some b).
  - by exists None.
Qed.

Lemma analyzeSymbol_few_candles sym tf candles higherTFCandles
    (activeSetups : gmap string BackburnerSetup) :
  length candles < 50 ->
  analyzeSymbol config clock sym tf candles higherTFCandles activeSetups
  = Ok (None, activeSetups).
Proof.
  intros H. unfold analyzeSymbol.
  by destruct (Nat.ltb_spec (length candles) 50); [|lia].
Qed.

Lemma analyzeSymbol_few_samples sym tf candles higherTFCandles
    (activeSetups : gmap string BackburnerSetup) :
  length (calculateRSI candles (rsiPeriod config)) < 5 ->
  analyzeSymbol config clock sym tf candles higherTFCandles activeSetups
  = Ok (None, activeSetups).
Proof.
  intros H. unfold analyzeSymbol.
  destruct (length candles <? 50)%nat; [done|].
  destruct (getCurrentRSI _ _); [|done].
  by destruct (Nat.ltb_spec (length (calculateRSI candles (rsiPeriod config)))
                 5); [|lia].
Qed.

Lemma analyzeSymbol_short sym tf candles higherTFCandles
    (activeSetups : gmap string BackburnerSetup) :
  length candles < 50
  \/ length (calculateRSI candles (rsiPeriod config)) < 5 ->
  analyzeSymbol config clock sym tf candles higherTFCandles activeSetups
  = Ok (None, activeSetups).
Proof.
  intros [H|H];
    [by apply analyzeSymbol_few_candles|by apply analyzeSymbol_few_samples].
Qed.

(** C8.  With fewer than 50 candles, or fewer than 5 oscillator samples,
    [analyzeSymbol] returns [null], raises nothing and leaves the map of
    active setups as it was: every key, the one of the call included, holds
    what it held. *)
Theorem insufficient_data_returns_null sym tf candles higherTFCandles
    (activeSetups : gmap string BackburnerSetup) :
  length candles < 50
  \/ length (calculateRSI candles (rsiPeriod config)) < 5 ->
  analyzeSymbol config clock sym tf candles higherTFCandles activeSetups
  = Ok (None, activeSetups)
  /\ forall res activeSetups',
       analyzeSymbol config clock sym tf candles higherTFCandles activeSetups
       = Ok (res, activeSetups') ->
       res = None /\ forall k, activeSetups' !! k = activeSetups !! k.
Proof.
  intros H.
  assert (E : analyzeSymbol config clock sym tf candles higherTFCandles
                activeSetups = Ok (None, activeSetups)).
  { destruct H as [H|H].
    - by apply analyzeSymbol_few_candles.
    - by apply analyzeSymbol_few_samples. }
  split; [done|].
  intros res m' Hres. rewrite E in Hres. by simplify_eq.
Qed.

Lemma SetupState_eqb_eq a b : SetupState_eqb a b = true <-> a = b.
Proof. destruct a, b; simpl; split; intros; congruence. Qed.

Lemma isSetupInvalidated_eq setup candles c :
  last candles = Some c ->
  isSetupInvalidated config setup candles
  = Ok ((close c <? impulseLow setup)%float
        || (SetupState_eqb (state setup) triggered
            || SetupState_eqb (state setup) deep_oversold)
           && (impulseHigh setup * 0.99 <=? close c)%float
        || SetupState_eqb (state setup) bouncing
           && (currentRSI setup <? rsiOversoldThreshold config)%float).
Proof.
  intros Hc. unfold isSetupInvalidated.
  rewrite (at_index_last _ _ Hc). cbn [bind].
  destruct (close c <? impulseLow setup)%float; [done|].
  destruct ((SetupState_eqb (state setup) triggered
             || SetupState_eqb (state setup) deep_oversold)
            && (impulseHigh setup * 0.99 <=? close c)%float); [done|].
  cbn [orb].
  by destruct (SetupState_eqb (state setup) bouncing
               && (currentRSI setup <? rsiOversoldThreshold config)%float).
Qed.

Lemma determineSetupState_table setup rsi :
  determineSetupState config setup rsi
  = Spec.progressionTable config (state setup) rsi.
Proof.
  unfold determineSetupState, Spec.progressionTable.
  destruct (rsi <? rsiDeepOversoldThreshold config)%float; [done|].
  destruct (rsi <? rsiOversoldThreshold config)%float; [done|].
  by destruct (state setup).
Qed.

(** C2.  On an update of the record of a key with enough data, each of the
    three invalidation rules alone ends the record: price below the stored
    impulse low (any state); [triggered] or [deep_oversold] and price at
    least 99% of the stored impulse high; [bouncing] and oscillator below the
    oversold threshold.  The record is deleted from the map and returned
    refreshed, in state [played_out]. *)
Theorem invalidation_is_terminal sym tf candles higherTFCandles
    (activeSetups : gmap string BackburnerSetup) setup c rsi :
  activeSetups !! getSetupKey sym tf = Some setup ->
  getSetupKey (symbol setup) (timeframe setup) = getSetupKey sym tf ->
  50 <= length candles ->
  5 <= length (calculateRSI candles (rsiPeriod config)) ->
  last candles = Some c ->
  getCurrentRSI candles (rsiPeriod config) = Some rsi ->
  (close c <? impulseLow setup)%float = true
  \/ ((state setup = triggered \/ state setup = deep_oversold)
      /\ (impulseHigh setup * 0.99 <=? close c)%float = true)
  \/ (state setup = bouncing
      /\ (rsi <? rsiOversoldThreshold config)%float = true) ->
  exists r,
    analyzeSymbol config clock sym tf candles higherTFCandles activeSetups
    = Ok (Some r, delete (getSetupKey sym tf) activeSetups)
    /\ state r = played_out
    /\ delete (getSetupKey sym tf) activeSetups !! getSetupKey sym tf = None
    /\ exists htf,
         r = with_state (refresh setup rsi (close c) (clock 1) htf)
               played_out.
Proof.
  intros Hm Hkey Hn Hr Hc Hrsi Hrule.
  destruct (analyzeSymbol_sufficient sym tf candles higherTFCandles
              activeSetups c rsi Hn Hr Hc Hrsi) as [htf ->].
  rewrite Hm. unfold updateExistingSetup.
  rewrite (isSetupInvalidated_eq _ _ _ Hc). cbn [bind].
  cbn [refresh state impulseLow impulseHigh currentRSI symbol timeframe].
  rewrite Hkey.
  assert ((close c <? impulseLow setup)%float
          || (SetupState_eqb (state setup) triggered
              || SetupState_eqb (state setup) deep_oversold)
             && (impulseHigh setup * 0.99 <=? close c)%float
          || SetupState_eqb (state setup) bouncing
             && (rsi <? rsiOversoldThreshold config)%float = true) as ->.
  { destruct Hrule as [->|[[[->| ->] ->]|[-> ->]]]; simpl;
      by rewrite ?orb_true_r. }
  eexists. split; [done|]. split; [done|].
  split; [apply lookup_delete_eq|]. by exists htf.
Qed.

(** C3.  On an update that no invalidation rule ends, the state follows the
    progression table from the previous state; a record that reaches
    [played_out] is deleted from the map, any other is stored. *)
Theorem progression_follows_table sym tf candles higherTFCandles
    (activeSetups : gmap string BackburnerSetup) setup c rsi :
  activeSetups !! getSetupKey sym tf = Some setup ->
  getSetupKey (symbol setup) (timeframe setup) = getSetupKey sym tf ->
  50 <= length candles ->
  5 <= length (calculateRSI candles (rsiPeriod config)) ->
  last candles = Some c ->
  getCurrentRSI candles (rsiPeriod config) = Some rsi ->
  Spec.notInvalidated config setup (close c) rsi ->
  exists htf,
    let next := Spec.progressionTable config (state setup) rsi in
    let r := with_state (refresh setup rsi (close c) (clock 1) htf) next in
    analyzeSymbol config clock sym tf candles higherTFCandles activeSetups
    = Ok (Some r,
          match next with
          | played_out => delete (getSetupKey sym tf) activeSetups
          | _ => <[getSetupKey sym tf := r]> activeSetups
          end).
Proof.
  intros Hm Hkey Hn Hr Hc Hrsi (H1 & H2 & H3).
  destruct (analyzeSymbol_sufficient sym tf candles higherTFCandles
              activeSetups c rsi Hn Hr Hc Hrsi) as [htf ->].
  rewrite Hm. exists htf. unfold updateExistingSetup.
  rewrite (isSetupInvalidated_eq _ _ _ Hc). cbn [bind].
  cbn [refresh state impulseLow impulseHigh currentRSI symbol timeframe].
  rewrite Hkey, H1.
  assert ((SetupState_eqb (state setup) triggered
           || SetupState_eqb (state setup) deep_oversold)
          && (impulseHigh setup * 0.99 <=? close c)%float = false) as ->.
  { destruct (state setup) eqn:E; simpl; try done; apply H2; auto. }
  assert (SetupState_eqb (state setup) bouncing
          && (rsi <? rsiOversoldThreshold config)%float = false) as ->.
  { destruct (state setup) eqn:E; simpl; try done; apply H3; auto. }
  cbn [orb]. rewrite determineSetupState_table.
  cbn [refresh state with_state].
  by destruct (Spec.progressionTable config (state setup) rsi).
Qed.

End DetectorFacts.

Section LiveSet.
Import Indicators BackburnerDetector.

Lemma Timeframe_str_inj t1 t2 :
  Timeframe_str t1 = Timeframe_str t2 -> t1 = t2.
Proof. by destruct t1, t2. Qed.

Lemma Timeframe_str_no_dash tf s t :
  Timeframe_str tf <> s +:+ "-" +:+ t.
Proof.
  destruct tf; destruct s as [|a [|b [|d [|e s]]]];
    cbv [String.append Timeframe_str]; congruence.
Qed.

Lemma append_nil (x : string) : "" +:+ x = x.
Proof. reflexivity. Qed.

Lemma append_cons a (s x : string) : String a s +:+ x = String a (s +:+ x).
Proof. reflexivity. Qed.

Lemma getSetupKey_inj s1 t1 s2 t2 :
  getSetupKey s1 t1 = getSetupKey s2 t2 -> s1 = s2 /\ t1 = t2.
Proof.
  unfold getSetupKey. revert s2.
  induction s1 as [|a s1 IH]; intros [|b s2] H;
    rewrite ?append_cons, ?append_nil in H.
  - injection H as H. by apply Timeframe_str_inj in H as ->.
  - injection H as _ H. by apply Timeframe_str_no_dash in H.
  - injection H as _ H. symmetry in H. by apply Timeframe_str_no_dash in H.
  - injection H as -> H. by destruct (IH _ H) as [-> ->].
Qed.

Variable config : Config.

Lemma detectNewSetup_outcome clock sym tf candles rsiValues rsi px htf
    (activeSetups : gmap string BackburnerSetup) :
  detectNewSetup config clock sym tf candles rsiValues rsi px htf activeSetups
  = Ok (None, activeSetups)
  \/ exists s,
       detectNewSetup config clock sym tf candles rsiValues rsi px htf
         activeSetups
       = Ok (Some s, <[getSetupKey sym tf := s]> activeSetups)
       /\ symbol s = sym /\ timeframe s = tf
       /\ (state s = triggered \/ state s = deep_oversold).
Proof.
  unfold detectNewSetup.
  destruct (detectImpulseMove_total candles (minImpulsePercent config) 50)
    as (found & -> & Hfound); [lia|].
  cbn [bind]. destruct found as [impulse|]; [|by left].
  destruct (Hfound impulse eq_refl) as (Hn & Hs & He).
  destruct (direction impulse); [|by left].
  destruct (endPrice impulse <=? px)%float; [by left|].
  destruct (px <=? startPrice impulse)%float; [by left|].
  destruct (negb _ && _); [by left|].
  destruct (at_index_lt candles (startIndex impulse)) as [cs ->]; [lia|].
  destruct (at_index_lt candles (endIndex impulse)) as [ce ->]; [lia|].
  cbn [bind].
  destruct (rsi <? rsiDeepOversoldThreshold config)%float.
  { right. eexists. split; [done|]. simpl. auto. }
  destruct (rsi <? rsiOversoldThreshold config)%float.
  { right. eexists. split; [done|]. simpl. auto. }
  by left.
Qed.

Lemma progressionTable_live prev rsi :
  Spec.live prev ->
  Spec.progressionTable config prev rsi = played_out
  \/ Spec.live (Spec.progressionTable config prev rsi).
Proof.
  unfold Spec.progressionTable, Spec.live.
  destruct (rsi <? rsiDeepOversoldThreshold config)%float; [auto|].
  destruct (rsi <? rsiOversoldThreshold config)%float; [auto|].
  intros [->|[->| ->]];
    try (destruct (40 <? rsi)%float); try (destruct (50 <? rsi)%float); auto.
Qed.

Lemma updateExistingSetup_outcome clock setup candles rsi px htf
    (activeSetups : gmap string BackburnerSetup) :
  50 <= length candles ->
  Spec.live (state setup) ->
  let key := getSetupKey (symbol setup) (timeframe setup) in
  exists r,
    symbol r = symbol setup /\ timeframe r = timeframe setup
    /\ ((updateExistingSetup config clock setup candles rsi px htf activeSetups
         = Ok (Some r, delete key activeSetups)
         /\ state r = played_out)
        \/ (updateExistingSetup config clock setup candles rsi px htf
              activeSetups
            = Ok (Some r, <[key := r]> activeSetups)
            /\ Spec.live (state r))).
Proof.
  intros Hn Hlive key. unfold updateExistingSetup. fold key.
  destruct (last candles) as [c|] eqn:Hc.
  2:{ apply last_None in Hc. subst. simpl in Hn. lia. }
  rewrite (isSetupInvalidated_eq _ _ _ _ Hc). cbn [bind].
  set (setup1 := refresh setup rsi px (clock 1) htf).
  destruct (_ || _ || _).
  { exists (with_state setup1 played_out).
    split; [done|]. split; [done|]. by left. }
  rewrite determineSetupState_table.
  exists (with_state setup1 (Spec.progressionTable config (state setup) rsi)).
  split; [done|]. split; [done|].
  change (state setup1) with (state setup).
  change (state (with_state setup1
                   (Spec.progressionTable config (state setup) rsi)))
    with (Spec.progressionTable config (state setup) rsi).
  destruct (progressionTable_live (state setup) rsi Hlive) as [E|Hl].
  - left. by rewrite E.
  - right. split; [|done].
    by destruct Hl as [->|[->| ->]].
Qed.

Lemma analyzeSymbol_outcome clock sym tf candles higherTFCandles
    (activeSetups : gmap string BackburnerSetup) :
  Spec.storeInvariant activeSetups ->
  let key := getSetupKey sym tf in
  analyzeSymbol config clock sym tf candles higherTFCandles activeSetups
  = Ok (None, activeSetups)
  \/ exists r,
       symbol r = sym /\ timeframe r = tf
       /\ ((analyzeSymbol config clock sym tf candles higherTFCandles
              activeSetups
            = Ok (Some r, delete key activeSetups)
            /\ state r = played_out)
           \/ (analyzeSymbol config clock sym tf candles higherTFCandles
                 activeSetups
               = Ok (Some r, <[key := r]> activeSetups)
               /\ Spec.live (state r))).
Proof.
  intros Hinv key.
  destruct (decide (length candles < 50
                    \/ length (calculateRSI candles (rsiPeriod config)) < 5))
    as [Hshort|Hlong].
  { left. by apply analyzeSymbol_short. }
  assert (Hn : 50 <= length candles) by lia.
  assert (Hr : 5 <= length (calculateRSI candles (rsiPeriod config))) by lia.
  destruct (last candles) as [c|] eqn:Hc.
  2:{ apply last_None in Hc. subst. simpl in Hn. lia. }
  destruct (getCurrentRSI candles (rsiPeriod config)) as [rsi|] eqn:Hrsi.
  2:{ unfold getCurrentRSI in Hrsi. apply fmap_None, last_None in Hrsi.
      rewrite Hrsi in Hr. simpl in Hr. lia. }
  destruct (analyzeSymbol_sufficient config clock sym tf candles
              higherTFCandles activeSetups c rsi Hn Hr Hc Hrsi) as [htf ->].
  destruct (activeSetups !! getSetupKey sym tf) as [setup|] eqn:Hm.
  - destruct (Hinv _ _ Hm) as [Hkey Hlive].
    destruct (getSetupKey_inj _ _ _ _ Hkey) as [Hs Ht].
    destruct (updateExistingSetup_outcome clock setup candles rsi (close c)
                htf activeSetups Hn Hlive) as (r & Hrs & Hrt & Hcases).
    right. exists r. rewrite <- Hkey in Hcases.
    split; [congruence|]. split; [congruence|]. done.
  - destruct (detectNewSetup_outcome clock sym tf candles
                (calculateRSI candles (rsiPeriod config)) rsi (close c) htf
                activeSetups) as [->|(s & -> & Hs & Ht & Hst)]; [by left|].
    right. exists s. split; [done|]. split; [done|]. right. split; [done|].
    unfold Spec.live. tauto.
Qed.

Lemma storeInvariant_insert (m : gmap string BackburnerSetup) r :
  Spec.storeInvariant m -> Spec.live (state r) ->
  Spec.storeInvariant (<[getSetupKey (symbol r) (timeframe r) := r]> m).
Proof.
  intros Hinv Hlive k r' Hk.
  destruct (decide (getSetupKey (symbol r) (timeframe r) = k)) as [<-|Hne].
  - rewrite lookup_insert_eq in Hk. by injection Hk as <-.
  - rewrite lookup_insert_ne in Hk by done. by apply Hinv.
Qed.

Lemma storeInvariant_delete (m : gmap string BackburnerSetup) k :
  Spec.storeInvariant m -> Spec.storeInvariant (delete k m).
Proof.
  intros Hinv k' r' Hk. apply lookup_delete_Some in Hk as [_ Hk].
  by apply Hinv.
Qed.

Lemma applyOp_invariant op (m : gmap string BackburnerSetup) :
  Spec.storeInvariant m -> Spec.storeInvariant (Spec.applyOp config op m).
Proof.
  intros Hinv. destruct op as [clock sym tf candles htf|sym tf|]; simpl.
  - destruct (analyzeSymbol_outcome clock sym tf candles htf m Hinv)
      as [->|(r & Hs & Ht & [[-> _]|[-> Hl]])]; [done| |].
    + by apply storeInvariant_delete.
    + subst sym tf. by apply storeInvariant_insert.
  - by apply storeInvariant_delete.
  - intros k r Hk. unfold clearAllSetups in Hk. by rewrite lookup_empty in Hk.
Qed.

Lemma runOps_invariant ops (m : gmap string BackburnerSetup) :
  Spec.storeInvariant m -> Spec.storeInvariant (Spec.runOps config ops m).
Proof.
  revert m. induction ops as [|op ops IH]; intros m Hinv; [done|].
  simpl. apply IH. by apply applyOp_invariant.
Qed.

(** C7.  After any sequence of [analyzeSymbol], [removeSetup] and
    [clearAllSetups] calls: every record of the map is [triggered],
    [deep_oversold] or [bouncing] and is held at the key of its own symbol
    and timeframe; keys determine symbol and timeframe, so no two records
    share them; and the next [analyzeSymbol] raises nothing, and a record it
    returns in state [played_out] is no longer in the map, any other is. *)
Theorem live_set_invariant (ops : list Spec.Op) :
  let activeSetups := Spec.runOps config ops ∅ in
  Spec.storeInvariant activeSetups
  /\ (forall s1 t1 s2 t2,
        getSetupKey s1 t1 = getSetupKey s2 t2 -> s1 = s2 /\ t1 = t2)
  /\ (forall k1 k2 r1 r2,
        activeSetups !! k1 = Some r1 -> activeSetups !! k2 = Some r2 ->
        symbol r1 = symbol r2 -> timeframe r1 = timeframe r2 ->
        k1 = k2 /\ r1 = r2)
  /\ (forall clock sym tf candles htf,
        exists res activeSetups',
          analyzeSymbol config clock sym tf candles htf activeSetups
          = Ok (res, activeSetups')
          /\ forall r, res = Some r ->
               state r <> watching
               /\ (state r = played_out ->
                   activeSetups' !! getSetupKey sym tf = None)
               /\ (state r <> played_out ->
                   activeSetups' !! getSetupKey sym tf = Some r)).
Proof.
  intros activeSetups.
  assert (Hinv : Spec.storeInvariant activeSetups).
  { apply runOps_invariant. intros k r Hk. by rewrite lookup_empty in Hk. }
  split; [done|]. split; [apply getSetupKey_inj|]. split.
  - intros k1 k2 r1 r2 H1 H2 Hs Ht.
    destruct (Hinv _ _ H1) as [E1 _]. destruct (Hinv _ _ H2) as [E2 _].
    assert (k1 = k2) as -> by congruence. split; [done|]. congruence.
  - intros clock sym tf candles htf.
    destruct (analyzeSymbol_outcome clock sym tf candles htf activeSetups Hinv)
      as [->|(r & Hs & Ht & [[-> Hst]|[-> Hl]])].
    + do 2 eexists. split; [done|]. intros r Hr. done.
    + do 2 eexists. split; [done|]. intros r' Hr. injection Hr as <-.
      split; [congruence|]. split; [intros _; apply lookup_delete_eq|done].
    + do 2 eexists. split; [done|]. intros r' Hr. injection Hr as <-.
      split; [destruct Hl as [?|[?|?]]; congruence|].
      split; [destruct Hl as [?|[?|?]]; congruence|].
      intros _. apply lookup_insert_eq.
Qed.

End LiveSet.

(* ===================================================================== *)
(** * New setups *)
(* ===================================================================== *)

Section NewSetups.
Import Indicators BackburnerDetector.

Lemma detectNewSetup_pullback config clock sym tf candles rsiValues rsi px
    htf (activeSetups activeSetups' : gmap string BackburnerSetup) impulse r :
  detectImpulseMove candles (minImpulsePercent config) 50
  = Ok (Some impulse) ->
  detectNewSetup config clock sym tf candles rsiValues rsi px htf activeSetups
  = Ok (Some r, activeSetups') ->
  pullbackAvgVolume r
  = calculateAvgVolume (drop (endIndex impulse + 1) candles)
      (length (drop (endIndex impulse + 1) candles)).
Proof.
  intros Himp. unfold detectNewSetup. rewrite Himp. cbn [bind].
  destruct (direction impulse); [|done].
  destruct (endPrice impulse <=? px)%float; [done|].
  destruct (px <=? startPrice impulse)%float; [done|].
  destruct (negb _ && _); [done|].
  destruct (SetupState_eqb _ watching); [done|].
  destruct (at_index candles (startIndex impulse)); [|done].
  destruct (at_index candles (endIndex impulse)); [|done].
  cbn [bind]. intros H. by simplify_eq.
Qed.

Lemma isVolumeContracting_positions candles first last :
  isVolumeContracting (slice first (last + 1) candles)
    (drop (last + 1) candles)
  = Spec.volumeContraction candles first last.
Proof.
  unfold isVolumeContracting, Spec.volumeContraction, Spec.meanVolume.
  destruct (slice first (last + 1) candles) as [|a l]; [done|].
  by destruct (drop (last + 1) candles).
Qed.

(** The flag of a new record is the contraction at the positions
    [startIndex .. endIndex] of the series handed in, where [startIndex] and
    [endIndex] are positions in the window of its last 50 candles; the two
    are the same positions for a series of 50 candles. *)
Lemma volumeContracting_of_new_setup config clock sym tf candles rsiValues
    rsi px htf (activeSetups activeSetups' : gmap string BackburnerSetup)
    impulse r :
  detectImpulseMove candles (minImpulsePercent config) 50
  = Ok (Some impulse) ->
  detectNewSetup config clock sym tf candles rsiValues rsi px htf activeSetups
  = Ok (Some r, activeSetups') ->
  volumeContracting r
  = Spec.volumeContraction candles (startIndex impulse) (endIndex impulse).
Proof.
  intros Himp. unfold detectNewSetup. rewrite Himp. cbn [bind].
  destruct (direction impulse); [|done].
  destruct (endPrice impulse <=? px)%float; [done|].
  destruct (px <=? startPrice impulse)%float; [done|].
  destruct (negb _ && _); [done|].
  destruct (SetupState_eqb _ watching); [done|].
  destruct (at_index candles (startIndex impulse)); [|done].
  destruct (at_index candles (endIndex impulse)); [|done].
  cbn [bind]. intros H. simplify_eq. cbn [volumeContracting].
  apply isVolumeContracting_positions.
Qed.

(** Whenever the current oscillator is below the oversold threshold, an up
    impulse with the price strictly inside it yields a record, whatever the
    earlier oscillator samples are: [isFirstOversoldAfterImpulse] is
    consulted only when the oscillator is at or above the threshold. *)
Lemma oversold_creates_whatever_the_history config clock sym tf candles
    rsiValues rsi px htf (activeSetups : gmap string BackburnerSetup)
    impulse :
  detectImpulseMove candles (minImpulsePercent config) 50
  = Ok (Some impulse) ->
  direction impulse = up ->
  (endPrice impulse <=? px)%float = false ->
  (px <=? startPrice impulse)%float = false ->
  (rsi <? rsiOversoldThreshold config)%float = true ->
  exists r,
    detectNewSetup config clock sym tf candles rsiValues rsi px htf
      activeSetups
    = Ok (Some r, <[getSetupKey sym tf := r]> activeSetups).
Proof.
  intros Himp Hdir Hhigh Hlow Hrsi.
  destruct (detectImpulseMove_total candles (minImpulsePercent config) 50)
    as (found & Hfound & Hidx); [lia|].
  rewrite Himp in Hfound. injection Hfound as <-.
  destruct (Hidx impulse eq_refl) as (Hn & Hs & He).
  unfold detectNewSetup. rewrite Himp. cbn [bind].
  rewrite Hdir, Hhigh, Hlow, (flt_not_fle _ _ Hrsi), andb_false_r, Hrsi.
  destruct (at_index_lt candles (startIndex impulse)) as [cs ->]; [lia|].
  destruct (at_index_lt candles (endIndex impulse)) as [ce ->]; [lia|].
  cbn [bind].
  destruct (rsi <? rsiDeepOversoldThreshold config)%float; by eexists.
Qed.

(** C10.  [calculateAvgVolume] of no candles over period 0 divides 0 by 0
    and is NaN; and whenever [analyzeSymbol] creates a record from a series
    of exactly 50 candles whose impulse ends at the final candle (index 49),
    the pullback is empty and the record's [pullbackAvgVolume] is NaN. *)
Theorem empty_pullback_average_is_nan :
  PrimFloat.is_nan (calculateAvgVolume [] 0) = true
  /\ forall config clock sym tf candles htf
       (activeSetups activeSetups' : gmap string BackburnerSetup) impulse r,
       length candles = 50 ->
       activeSetups !! getSetupKey sym tf = None ->
       detectImpulseMove candles (minImpulsePercent config) 50
       = Ok (Some impulse) ->
       endIndex impulse = 49 ->
       analyzeSymbol config clock sym tf candles htf activeSetups
       = Ok (Some r, activeSetups') ->
       PrimFloat.is_nan (pullbackAvgVolume r) = true.
Proof.
  split; [reflexivity|].
  intros config clock sym tf candles htf m m' impulse r Hn Hm Himp Hend Hr.
  destruct (decide (length candles < 50
                    \/ length (calculateRSI candles (rsiPeriod config)) < 5))
    as [Hshort|Hlong].
  { rewrite analyzeSymbol_short in Hr by done. done. }
  destruct (last candles) as [c|] eqn:Hc.
  2:{ apply last_None in Hc. subst. simpl in Hlong. lia. }
  destruct (getCurrentRSI candles (rsiPeriod config)) as [rsi|] eqn:Hrsi.
  2:{ unfold getCurrentRSI in Hrsi. apply fmap_None, last_None in Hrsi.
      rewrite Hrsi in Hlong. simpl in Hlong. lia. }
  destruct (analyzeSymbol_sufficient config clock sym tf candles htf m c rsi)
    as [h Heq]; [lia|lia|done|done|].
  rewrite Heq, Hm in Hr.
  rewrite (detectNewSetup_pullback _ _ _ _ _ _ _ _ _ _ _ _ _ Himp Hr).
  rewrite Hend, drop_ge by lia. reflexivity.
Qed.

End NewSetups.

(* ===================================================================== *)
(** * The code on concrete inputs *)
(* ===================================================================== *)

Section Evaluations.
Import Indicators BackburnerDetector Examples.

(** C1.  On [repeatedOversold] the impulse ends at candle 40 and nine
    oscillator samples from there on are below the oversold threshold, so
    [isFirstOversoldAfterImpulse] is false; [analyzeSymbol] creates a record
    all the same. *)
Theorem repeated_oversold_creates_record :
  detectImpulseMove repeatedOversold (minImpulsePercent config) 50
  = Ok (Some (mkImpulse 0 40 50 120 140 up))
  /\ Spec.oversoldSamplesSince config
       (calculateRSI repeatedOversold (rsiPeriod config)) 40 = 9
  /\ isFirstOversoldAfterImpulse config
       (calculateRSI repeatedOversold (rsiPeriod config)) 40 50 = false
  /\ exists r,
       analyzeSymbol config clock "BTCUSDT" TF_5m repeatedOversold None ∅
       = Ok (Some r, <["BTCUSDT-5m" := r]> ∅)
       /\ state r = deep_oversold.
Proof.
  split; [vm_compute; reflexivity|].
  split; [vm_compute; reflexivity|].
  split; [vm_compute; reflexivity|].
  eexists. split; vm_compute; reflexivity.
Qed.

(** C4.  On [longSeries] (51 candles) the impulse found in the window of the
    last 50 lies at the positions 1 to 41 of the series, where pullback and
    impulse have the same mean volume, so there is no contraction; the record
    [analyzeSymbol] creates has [volumeContracting] true, the window's
    indices 0 to 40 having been read as positions of the series. *)
Theorem long_series_contraction_flag :
  length longSeries = 51
  /\ detectImpulseMove longSeries (minImpulsePercent config) 50
     = Ok (Some (mkImpulse 0 40 50 120 140 up))
  /\ Spec.volumeContraction longSeries 1 41 = false
  /\ exists r,
       analyzeSymbol config clock "BTCUSDT" TF_5m longSeries None ∅
       = Ok (Some r, <["BTCUSDT-5m" := r]> ∅)
       /\ volumeContracting r = true.
Proof.
  split; [reflexivity|].
  split; [vm_compute; reflexivity|].
  split; [vm_compute; reflexivity|].
  eexists. split; vm_compute; reflexivity.
Qed.

(** C9.  Twenty requests submitted at once to [new RateLimiter(10, 50)]:
    the first is dispatched, the other nineteen sleep without being counted
    as running, and when their timers fire all are dispatched at the same
    time: twenty requests are in flight and successive dispatches are 0
    apart. *)
Theorem twenty_requests_all_in_flight :
  exists w,
    RateLimiter.steps twentyAtOnce (RateLimiter.create 10 50) = Some w
    /\ RateLimiter.running (RateLimiter.limiter w) = 20
    /\ length (RateLimiter.inflight w) = 20
    /\ RateLimiter.minGap (RateLimiter.dispatches w) = Some 0%Z.
Proof.
  eexists. split; [vm_compute; reflexivity|].
  repeat split; vm_compute; reflexivity.
Qed.

(** On [endsAtLastOf51] the impulse ends at the final candle of the window
    of the last 50 (index 49 of the window, position 50 of the series); the
    record [analyzeSymbol] creates takes [candles.slice(50)], the last candle
    alone, as the pullback, and its [pullbackAvgVolume] is 10, not NaN. *)
Lemma pullback_of_51_candles_is_not_empty :
  length endsAtLastOf51 = 51
  /\ detectImpulseMove endsAtLastOf51 (minImpulsePercent config) 50
     = Ok (Some (mkImpulse 0 49 50 200 300 up))
  /\ exists r,
       analyzeSymbol config clock "BTCUSDT" TF_5m endsAtLastOf51 None ∅
       = Ok (Some r, <["BTCUSDT-5m" := r]> ∅)
       /\ pullbackAvgVolume r = 10%float
       /\ PrimFloat.is_nan (pullbackAvgVolume r) = false.
Proof.
  split; [reflexivity|].
  split; [vm_compute; reflexivity|].
  eexists. repeat split; vm_compute; reflexivity.
Qed.

End Evaluations.

(* ===================================================================== *)
(** * The theorems at concrete inputs *)
(* ===================================================================== *)

Section Instances.
Import Indicators BackburnerDetector Examples.

(** Fifteen candles and period 14 give one sample; no candle gives none. *)
Lemma calculateRSI_spec_witness :
  length (calculateRSI (take 15 rising) 14) = 1
  /\ calculateRSI [] 14 = [].
Proof.
  split.
  - destruct (calculateRSI_spec (take 15 rising) 14) as [_ H].
    destruct H as [H _]; [vm_compute; lia|]. rewrite H. reflexivity.
  - apply (calculateRSI_spec [] 14). simpl. lia.
Defined.

(** Among the last three of [fourCandles] the low of 90 comes first and the
    high of 150 last: an up move of 66.67 percent. *)
Lemma detectImpulseMove_spec_witness :
  detectImpulseMove fourCandles 5 3
  = Ok (Some (mkImpulse 0 2 90 150 ((150 - 90) / 90 * 100) up)).
Proof.
  destruct (detectImpulseMove_spec fourCandles 5 3) as (_ & _ & H).
  destruct (H 2 0) as [Hup _].
  - simpl. lia.
  - intros c Hc. vm_compute in Hc.
    repeat (apply elem_of_cons in Hc as [->|Hc]); try (by split).
    by apply elem_of_nil in Hc.
  - eexists. split; [reflexivity|].
    split; intros [|[|[|j]]] cj; simpl; intros; simplify_eq;
      try reflexivity; lia.
  - eexists. split; [reflexivity|].
    split; intros [|[|[|j]]] cj; simpl; intros; simplify_eq;
      try reflexivity; lia.
  - rewrite Hup; [reflexivity|lia|reflexivity].
Defined.

(** A [triggered] record with impulse low 95 and a close of 91: deleted and
    returned as [played_out]. *)
Lemma invalidation_is_terminal_witness :
  exists r,
    analyzeSymbol config clock "BTCUSDT" TF_5m repeatedOversold None
      (store triggered 95)
    = Ok (Some r, delete (getSetupKey "BTCUSDT" TF_5m) (store triggered 95))
    /\ state r = played_out.
Proof.
  destruct (invalidation_is_terminal config clock "BTCUSDT" TF_5m
              repeatedOversold None (store triggered 95)
              (record triggered 95) (impulseThenFall 49) 0)
    as (r & H1 & H2 & _).
  - vm_compute; reflexivity.
  - reflexivity.
  - vm_compute; lia.
  - vm_compute; lia.
  - vm_compute; reflexivity.
  - vm_compute; reflexivity.
  - left. vm_compute; reflexivity.
  - by exists r.
Defined.

(** A [triggered] record and an oscillator risen to 100, above 40: the
    record is returned as [played_out] and deleted. *)
Lemma progression_follows_table_witness :
  exists r,
    analyzeSymbol config clock "BTCUSDT" TF_5m rising None
      (store triggered 50)
    = Ok (Some r, delete (getSetupKey "BTCUSDT" TF_5m) (store triggered 50))
    /\ state r = played_out.
Proof.
  destruct (progression_follows_table config clock "BTCUSDT" TF_5m
              rising None (store triggered 50)
              (record triggered 50) (candle 49 149 150 149 150 10) 100)
    as (htf & H).
  - vm_compute; reflexivity.
  - reflexivity.
  - vm_compute; lia.
  - vm_compute; lia.
  - vm_compute; reflexivity.
  - vm_compute; reflexivity.
  - split; [vm_compute; reflexivity|].
    split; intros _; vm_compute; reflexivity.
  - eexists. split; [exact H|reflexivity].
Defined.

(** Three candles and a live record: nothing returned, nothing changed. *)
Lemma insufficient_data_returns_null_witness :
  analyzeSymbol config clock "BTCUSDT" TF_5m (take 3 rising) None
    (store bouncing 50)
  = Ok (None, store bouncing 50).
Proof.
  apply (insufficient_data_returns_null config clock "BTCUSDT" TF_5m
           (take 3 rising) None (store bouncing 50)).
  left. vm_compute. lia.
Defined.

(** After one detection the map holds a live record at its own key. *)
Lemma live_set_invariant_witness :
  exists r,
    Spec.runOps config
      [Spec.OpAnalyze clock "BTCUSDT" TF_5m repeatedOversold None] ∅
    !! "BTCUSDT-5m" = Some r
    /\ "BTCUSDT-5m" = getSetupKey (symbol r) (timeframe r)
    /\ Spec.live (state r).
Proof.
  eexists. split; [vm_compute; reflexivity|].
  eapply (proj1 (live_set_invariant config
                   [Spec.OpAnalyze clock "BTCUSDT" TF_5m repeatedOversold
                      None])).
  vm_compute; reflexivity.
Defined.

(** The record created from [endsAtLastCandle] has NaN as its pullback
    average volume. *)
Lemma empty_pullback_average_is_nan_witness :
  exists r activeSetups',
    analyzeSymbol config clock "BTCUSDT" TF_5m endsAtLastCandle None ∅
    = Ok (Some r, activeSetups')
    /\ PrimFloat.is_nan (pullbackAvgVolume r) = true.
Proof.
  do 2 eexists. split; [vm_compute; reflexivity|].
  eapply (proj2 empty_pullback_average_is_nan config clock "BTCUSDT" TF_5m
            endsAtLastCandle None ∅ _ (mkImpulse 0 49 50 200 300 up)).
  - reflexivity.
  - reflexivity.
  - vm_compute; reflexivity.
  - reflexivity.
  - vm_compute; reflexivity.
Defined.

End Instances.

(* ===================================================================== *)
(** * Moving averages *)
(* ===================================================================== *)

Section MovingAverages.
Import Indicators.

(** X1.  [calculateSMA] with a positive period returns one mean per window of
    [p] consecutive values, [n + 1 - p] in all (none when [n < p]): entry [i]
    is the sum of [values[i .. i + p - 1]], added left to right, over [p].
    With period 0 it returns [n + 1] values, all NaN. *)
Theorem calculateSMA_windows (values : list float) (p : nat) :
  (p = 0 ->
   length (calculateSMA values p) = length values + 1
   /\ forall x, x ∈ calculateSMA values p -> PrimFloat.is_nan x = true)
  /\ (1 <= p ->
      length (calculateSMA values p) = length values + 1 - p
      /\ forall i, i + p <= length values ->
           calculateSMA values p !! i
           = Some (sum (take p (drop i values)) / nat_to_float p)%float).
Proof.
  split.
  - intros ->. simpl. split; [rewrite length_replicate; lia|].
    intros x [-> | Hx]%elem_of_cons; [reflexivity|].
    by apply elem_of_replicate in Hx as [-> _].
  - intros Hp. destruct p as [|p']; [lia|]. unfold calculateSMA.
    split; [rewrite length_map, length_seq; lia|].
    intros i Hi. rewrite map_lookup, lookup_seq_lt by lia. simpl.
    unfold slice. replace (p' + i - p') with i by lia.
    by replace (p' + i + 1 - i) with (S p') by lia.
Qed.

Lemma emaLoop_length multiplier prev values :
  length (emaLoop multiplier prev values) = length values.
Proof.
  revert prev. induction values as [|v values IH]; intros prev; simpl; auto.
Qed.

Lemma emaLoop_step multiplier values :
  forall prev i a v,
    (prev :: emaLoop multiplier prev values) !! i = Some a ->
    values !! i = Some v ->
    (prev :: emaLoop multiplier prev values) !! S i
    = Some ((v - a) * multiplier + a)%float.
Proof.
  induction values as [|v0 values IH]; intros prev i a v Ha Hv; [done|].
  destruct i as [|i].
  - simpl in *. by simplify_eq.
  - simpl in Hv. cbn [emaLoop] in Ha |- *.
    rewrite lookup_cons_ne_0 in Ha by done.
    rewrite lookup_cons_ne_0 by done. cbn [Nat.pred] in *.
    by apply IH.
Qed.

(** X2.  [calculateEMA] returns nothing for fewer than [p] values; otherwise it
    returns [n - p + 1] values: the mean of the first [p] values, and then for
    each further value [v] the previous entry moved towards [v] by the
    multiplier [2 / (p + 1)]. *)
Theorem calculateEMA_spec (values : list float) (p : nat) :
  (length values < p -> calculateEMA values p = [])
  /\ (p <= length values ->
      length (calculateEMA values p) = length values - p + 1
      /\ calculateEMA values p !! 0
         = Some (sum (take p values) / nat_to_float p)%float
      /\ forall i prev v,
           calculateEMA values p !! i = Some prev ->
           values !! (p + i) = Some v ->
           calculateEMA values p !! S i
           = Some ((v - prev) * (2 / (nat_to_float p + 1)) + prev)%float).
Proof.
  unfold calculateEMA. split.
  - intros Hn. by destruct (Nat.ltb_spec (length values) p); [|lia].
  - intros Hn. destruct (Nat.ltb_spec (length values) p) as [?|_]; [lia|].
    split; [|split].
    + cbn [length]. rewrite emaLoop_length, length_drop. lia.
    + unfold slice. by rewrite drop_0, Nat.sub_0_r.
    + intros i prev v Hprev Hv. apply emaLoop_step; [done|].
      by rewrite lookup_drop.
Qed.

End MovingAverages.

(* ===================================================================== *)
(** * More on the oscillator and on average volume *)
(* ===================================================================== *)

Section OscillatorShape.
Import Indicators.

Lemma calculateRSI_short candles p :
  length candles < p + 1 -> calculateRSI candles p = [].
Proof.
  intros Hn. unfold calculateRSI.
  by destruct (Nat.ltb_spec (length candles) (p + 1)); [|lia].
Qed.

(** The first sample and the loop that produces the others. *)
Lemma calculateRSI_unfold candles p c0 :
  candles !! p = Some c0 ->
  exists avgGain avgLoss,
    calculateRSI candles p
    = mkRSI (rsiValue avgGain avgLoss) (timestamp c0)
        :: wilderLoop (nat_to_float p) avgGain avgLoss
             (drop p (map gainOf (closeChanges candles)))
             (drop p (map lossOf (closeChanges candles)))
             (drop (S p) candles)
    /\ avgLoss
       = (sum (slice 0 p (map lossOf (closeChanges candles)))
            / nat_to_float p)%float.
Proof.
  intros Hc0. pose proof (lookup_lt_Some _ _ _ Hc0) as Hlt.
  unfold calculateRSI.
  destruct (Nat.ltb_spec (length candles) (p + 1)) as [?|_]; [lia|].
  rewrite (drop_S _ _ _ Hc0). by do 2 eexists.
Qed.

Lemma calculateRSI_tail_lengths candles p :
  length (drop p (map gainOf (closeChanges candles)))
  = length (drop (S p) candles)
  /\ length (drop p (map lossOf (closeChanges candles)))
     = length (drop (S p) candles).
Proof.
  rewrite !length_drop, !length_map, closeChanges_length. lia.
Qed.

Lemma calculateRSI_length candles p :
  p + 1 <= length candles ->
  length (calculateRSI candles p) = length candles - p.
Proof.
  intros Hn.
  destruct (lookup_lt_is_Some_2 candles p) as [c0 Hc0]; [lia|].
  destruct (calculateRSI_unfold candles p c0 Hc0) as (ag & al & -> & _).
  destruct (calculateRSI_tail_lengths candles p) as [Hg Hl].
  cbn [length]. rewrite wilderLoop_length by done.
  rewrite length_drop. lia.
Qed.

Lemma wilderLoop_timestamps pf ag al gs ls cs :
  length gs = length cs -> length ls = length cs ->
  map rsi_timestamp (wilderLoop pf ag al gs ls cs) = map timestamp cs.
Proof.
  revert ag al ls cs.
  induction gs as [|g gs IH]; intros ag al [|l ls] [|c cs] Hg Hl;
    simpl in *; try done.
  f_equal. apply IH; lia.
Qed.

Lemma calculateRSI_timestamps candles p :
  p + 1 <= length candles ->
  map rsi_timestamp (calculateRSI candles p) = map timestamp (drop p candles).
Proof.
  intros Hn.
  destruct (lookup_lt_is_Some_2 candles p) as [c0 Hc0]; [lia|].
  destruct (calculateRSI_unfold candles p c0 Hc0) as (ag & al & -> & _).
  destruct (calculateRSI_tail_lengths candles p) as [Hg Hl].
  rewrite (drop_S _ _ _ Hc0). cbn [map]. f_equal.
  by apply wilderLoop_timestamps.
Qed.

(** X3.  [getCurrentRSI] is [null] exactly for fewer than [p + 1] candles;
    otherwise it is the value of the last sample, which carries the timestamp
    of the last candle. *)
Theorem getCurrentRSI_spec (candles : list Candle) (p : nat) :
  (getCurrentRSI candles p = None <-> length candles < p + 1)
  /\ forall rsi, getCurrentRSI candles p = Some rsi ->
       exists r c,
         last (calculateRSI candles p) = Some r /\ value r = rsi
         /\ last candles = Some c /\ rsi_timestamp r = timestamp c.
Proof.
  unfold getCurrentRSI. split.
  - rewrite fmap_None, last_None. split.
    + intros E. destruct (decide (length candles < p + 1)); [done|].
      pose proof (calculateRSI_length candles p ltac:(lia)) as Hlen.
      rewrite E in Hlen. simpl in Hlen. lia.
    + apply calculateRSI_short.
  - intros rsi Hrsi.
    destruct (last (calculateRSI candles p)) as [r|] eqn:Hr; [|done].
    simpl in Hrsi. injection Hrsi as <-.
    assert (Hn : p + 1 <= length candles).
    { destruct (decide (length candles < p + 1)) as [Hs|]; [|lia].
      by rewrite (calculateRSI_short _ _ Hs) in Hr. }
    destruct (last candles) as [c|] eqn:Hc.
    2:{ apply last_None in Hc. subst. simpl in Hn. lia. }
    exists r, c. repeat split; try done.
    pose proof (calculateRSI_timestamps candles p Hn) as Hts.
    pose proof (calculateRSI_length candles p Hn) as Hlen.
    rewrite last_lookup in Hr. rewrite last_lookup in Hc.
    apply (f_equal (fun l => l !! pred (length candles - p))) in Hts.
    rewrite !map_lookup, lookup_drop in Hts.
    rewrite Hlen in Hr. rewrite Hr in Hts.
    replace (p + pred (length candles - p)) with (pred (length candles))
      in Hts by lia.
    rewrite Hc in Hts. simpl in Hts. congruence.
Qed.

Lemma closeChanges_never_falling candles :
  (forall i a b, candles !! i = Some a -> candles !! S i = Some b ->
     (close b - close a <? 0)%float = false) ->
  Forall (fun x => x = 0%float) (map lossOf (closeChanges candles)).
Proof.
  induction candles as [|c0 tl IH]; intros H; [constructor|].
  destruct tl as [|c1 tl]; [constructor|].
  change (Forall (fun x => x = 0%float)
            (lossOf (close c1 - close c0)
               :: map lossOf (closeChanges (c1 :: tl)))).
  constructor.
  - unfold lossOf. by rewrite (H 0 c0 c1).
  - apply IH. intros i a b Ha Hb. by apply (H (S i)).
Qed.

Lemma sum_zeros xs : Forall (fun x => x = 0%float) xs -> sum xs = 0%float.
Proof.
  unfold sum. induction 1 as [|x xs -> _ IH]; [done|]. simpl.
  change (0 + 0)%float with 0%float. exact IH.
Qed.

Lemma wilderLoop_no_loss pf ag gs ls cs :
  smooth pf 0 0 = 0%float ->
  Forall (fun x => x = 0%float) ls ->
  forall r, r ∈ wilderLoop pf ag 0 gs ls cs -> value r = 100%float.
Proof.
  intros Hpf Hls. revert ag gs cs.
  induction Hls as [|l ls -> _ IH]; intros ag gs cs r Hr.
  - destruct gs; simpl in Hr; by apply elem_of_nil in Hr.
  - destruct gs as [|g gs]; [by apply elem_of_nil in Hr|].
    destruct cs as [|c cs]; [by apply elem_of_nil in Hr|].
    cbn [wilderLoop] in Hr. rewrite Hpf in Hr.
    apply elem_of_cons in Hr as [->|Hr]; [reflexivity|].
    by eapply IH.
Qed.

(** X4.  With the default period 14, a series whose close never falls from one
    candle to the next has every oscillator sample equal to 100: all losses
    are 0, so the average loss is 0 throughout. *)
Theorem never_falling_rsi_is_100 (candles : list Candle) :
  (forall i a b, candles !! i = Some a -> candles !! S i = Some b ->
     (close b - close a <? 0)%float = false) ->
  forall r, r ∈ calculateRSI candles 14 -> value r = 100%float.
Proof.
  intros Hrise r Hr.
  pose proof (closeChanges_never_falling candles Hrise) as Hloss.
  destruct (candles !! 14) as [c0|] eqn:Hc0.
  2:{ apply lookup_ge_None in Hc0.
      rewrite calculateRSI_short in Hr by lia. by apply elem_of_nil in Hr. }
  destruct (calculateRSI_unfold candles 14 c0 Hc0) as (ag & al & E & Hal).
  rewrite E in Hr.
  assert (al = 0%float) as ->.
  { rewrite Hal, sum_zeros; [reflexivity|].
    unfold slice. by apply Forall_take, Forall_drop. }
  apply elem_of_cons in Hr as [->|Hr]; [reflexivity|].
  eapply (wilderLoop_no_loss (nat_to_float 14)); [reflexivity| |exact Hr].
  by apply Forall_drop.
Qed.

(** X5.  [calculateAvgVolume] over a period of at least the number of candles is
    the mean volume of all of them; over a positive period of at most that
    number it is the mean volume of the last [p] candles; and of no candles
    it is NaN whatever the period. *)
Theorem calculateAvgVolume_means (candles : list Candle) (p : nat) :
  (length candles <= p ->
   calculateAvgVolume candles p = Spec.meanVolume candles)
  /\ (1 <= p <= length candles ->
      calculateAvgVolume candles p
      = Spec.meanVolume (drop (length candles - p) candles))
  /\ (candles = [] -> PrimFloat.is_nan (calculateAvgVolume candles p) = true).
Proof.
  unfold calculateAvgVolume, Spec.meanVolume. split; [|split].
  - intros Hn. destruct (Nat.ltb_spec (length candles) p) as [?|Hge]; [done|].
    assert (p = length candles) as -> by lia.
    unfold sliceLast. destruct (length candles =? 0)%nat; [done|].
    by rewrite Nat.sub_diag, drop_0.
  - intros [Hp Hn].
    destruct (Nat.ltb_spec (length candles) p) as [?|_]; [lia|].
    rewrite sliceLast_recent by lia. rewrite length_drop.
    by replace (length candles - (length candles - p)) with p by lia.
  - intros ->. simpl. destruct p; reflexivity.
Qed.

End OscillatorShape.

(* ===================================================================== *)
(** * More on extrema and structural moves *)
(* ===================================================================== *)

Section ExtremaEdges.
Import Indicators.

Lemma is_nan_true x : PrimFloat.is_nan x = true -> Prim2SF x = S754_nan.
Proof.
  unfold PrimFloat.is_nan. rewrite FloatAxioms.eqb_spec.
  intros H. apply SFeqb_refl_nan. by apply negb_true_iff.
Qed.

Lemma nan_ltb_l a b : PrimFloat.is_nan a = true -> (a <? b)%float = false.
Proof.
  intros Ha. rewrite FloatAxioms.ltb_spec, (is_nan_true _ Ha). reflexivity.
Qed.

Lemma nan_ltb_r a b : PrimFloat.is_nan a = true -> (b <? a)%float = false.
Proof.
  intros Ha. rewrite FloatAxioms.ltb_spec, (is_nan_true _ Ha).
  unfold SFltb, SFcompare. by destruct (Prim2SF b).
Qed.

Lemma highestScan_lookup rest : forall pre h hi,
  pre !! hi = Some h ->
  (pre ++ rest) !! (highestScan h hi (length pre) rest).2
  = Some (highestScan h hi (length pre) rest).1.
Proof.
  induction rest as [|c rest IH]; intros pre h hi Hh.
  - simpl. rewrite app_nil_r. done.
  - assert (Hpre : pre ++ c :: rest = (pre ++ [c]) ++ rest)
      by (by rewrite <- app_assoc).
    assert (Hlen : S (length pre) = length (pre ++ [c]))
      by (rewrite length_app; simpl; lia).
    simpl. rewrite Hpre, Hlen.
    destruct (high h <? high c)%float; apply IH.
    + by rewrite lookup_app_r, Nat.sub_diag by lia.
    + by rewrite lookup_app_l by (by eapply lookup_lt_Some).
Qed.

Lemma lowestScan_lookup rest : forall pre l li,
  pre !! li = Some l ->
  (pre ++ rest) !! (lowestScan l li (length pre) rest).2
  = Some (lowestScan l li (length pre) rest).1.
Proof.
  induction rest as [|c rest IH]; intros pre l li Hl.
  - simpl. rewrite app_nil_r. done.
  - assert (Hpre : pre ++ c :: rest = (pre ++ [c]) ++ rest)
      by (by rewrite <- app_assoc).
    assert (Hlen : S (length pre) = length (pre ++ [c]))
      by (rewrite length_app; simpl; lia).
    simpl. rewrite Hpre, Hlen.
    destruct (low c <? low l)%float; apply IH.
    + by rewrite lookup_app_r, Nat.sub_diag by lia.
    + by rewrite lookup_app_l by (by eapply lookup_lt_Some).
Qed.

(** What the searches return on a non-empty array, NaN or not: a position
    of the array with that candle's high (low) and timestamp. *)
Lemma findHighestHigh_lookup w e :
  findHighestHigh w = Ok e ->
  exists c, w !! index e = Some c
    /\ price e = high c /\ ext_timestamp e = timestamp c.
Proof.
  destruct w as [|c0 rest]; [done|]. unfold findHighestHigh.
  pose proof (highestScan_lookup rest [c0] c0 0 eq_refl) as H.
  simpl in H. destruct (highestScan c0 0 1 rest) as [h k].
  intros E. injection E as <-. by exists h.
Qed.

Lemma findLowestLow_lookup w e :
  findLowestLow w = Ok e ->
  exists c, w !! index e = Some c
    /\ price e = low c /\ ext_timestamp e = timestamp c.
Proof.
  destruct w as [|c0 rest]; [done|]. unfold findLowestLow.
  pose proof (lowestScan_lookup rest [c0] c0 0 eq_refl) as H.
  simpl in H. destruct (lowestScan c0 0 1 rest) as [l k].
  intros E. injection E as <-. by exists l.
Qed.

Lemma findHighestHigh_raises w : findHighestHigh w = TypeError <-> w = [].
Proof.
  destruct w as [|c0 rest]; [done|]. unfold findHighestHigh.
  by destruct (highestScan c0 0 1 rest).
Qed.

Lemma findLowestLow_raises w : findLowestLow w = TypeError <-> w = [].
Proof.
  destruct w as [|c0 rest]; [done|]. unfold findLowestLow.
  by destruct (lowestScan c0 0 1 rest).
Qed.

(** X6.  [findHighestHigh] and [findLowestLow] raise exactly on the empty array.
    On candles without NaN prices, [findHighestHigh] returns the first
    position of the greatest high, and [findLowestLow] the first position of
    the least low, each with that candle's price and timestamp. *)
Theorem extrema_are_first_occurrences (w : list Candle) :
  (findHighestHigh w = TypeError <-> w = [])
  /\ (findLowestLow w = TypeError <-> w = [])
  /\ (Spec.pricesAreNumbers w ->
      (forall e, findHighestHigh w = Ok e ->
         Spec.firstHighest w (index e)
         /\ exists c, w !! index e = Some c
              /\ price e = high c /\ ext_timestamp e = timestamp c)
      /\ (forall e, findLowestLow w = Ok e ->
            Spec.firstLowest w (index e)
            /\ exists c, w !! index e = Some c
                 /\ price e = low c /\ ext_timestamp e = timestamp c)).
Proof.
  split; [apply findHighestHigh_raises|].
  split; [apply findLowestLow_raises|].
  intros Hnum. split.
  - intros e He. split; [|by apply findHighestHigh_lookup].
    assert (Hne : w <> []) by (intros ->; done).
    destruct (firstHighest_exists w Hne Hnum) as [i Hi].
    destruct (findHighestHigh_spec w i Hnum Hi) as [ts E].
    rewrite E in He. by injection He as <-.
  - intros e He. split; [|by apply findLowestLow_lookup].
    assert (Hne : w <> []) by (intros ->; done).
    destruct (firstLowest_exists w Hne Hnum) as [i Hi].
    destruct (findLowestLow_spec w i Hnum Hi) as [ts E].
    rewrite E in He. by injection He as <-.
Qed.

Lemma highestScan_nan rest : forall h hi i,
  PrimFloat.is_nan (high h) = true -> highestScan h hi i rest = (h, hi).
Proof.
  induction rest as [|c rest IH]; intros h hi i Hh; [done|].
  simpl. rewrite (nan_ltb_l _ _ Hh). by apply IH.
Qed.

Lemma lowestScan_nan rest : forall l li i,
  PrimFloat.is_nan (low l) = true -> lowestScan l li i rest = (l, li).
Proof.
  induction rest as [|c rest IH]; intros l li i Hl; [done|].
  simpl. rewrite (nan_ltb_r _ _ Hl). by apply IH.
Qed.

(** X7.  A NaN in the first candle wins the search: every comparison with it is
    false, so position 0 is returned whatever the other candles hold. *)
Theorem nan_first_candle_is_the_extremum (c0 : Candle) (rest : list Candle) :
  (PrimFloat.is_nan (high c0) = true ->
   findHighestHigh (c0 :: rest) = Ok (mkExtremum (high c0) 0 (timestamp c0)))
  /\ (PrimFloat.is_nan (low c0) = true ->
      findLowestLow (c0 :: rest) = Ok (mkExtremum (low c0) 0 (timestamp c0))).
Proof.
  split; intros H.
  - unfold findHighestHigh. by rewrite highestScan_nan.
  - unfold findLowestLow. by rewrite lowestScan_nan.
Qed.

(** X8.  [detectImpulseMove] raises exactly when the lookback is 0 and there are
    no candles: [candles.slice(-0)] is then the empty array and the search
    for its highest high reads [undefined.high]. *)
Theorem detectImpulseMove_raises_iff (candles : list Candle)
    (threshold : float) (lookback : nat) :
  detectImpulseMove candles threshold lookback = TypeError
  <-> lookback = 0 /\ candles = [].
Proof.
  split.
  - intros H. destruct lookback as [|lb].
    + split; [done|]. destruct candles as [|c0 rest]; [done|].
      exfalso. revert H. unfold detectImpulseMove, sliceLast. simpl.
      destruct (highestScan c0 0 1 rest) as [h ih].
      destruct (lowestScan c0 0 1 rest) as [l il]. cbn [bind index price].
      destruct (il <? ih)%nat; [destruct (threshold <=? _)%float|];
        try done;
        (destruct (ih <? il)%nat;
          [destruct (threshold <=? _)%float|]; done).
    + destruct (detectImpulseMove_total candles threshold (S lb))
        as (r & E & _); [lia|]. congruence.
  - by intros [-> ->].
Qed.

(** X9.  Every move [detectImpulseMove] returns starts before it ends, inside
    the window [candles.slice(-lookback)]; its magnitude is at least the
    threshold; an up move runs from a low of the window to a high, a down move
    from a high to a low, each at the position named, and its magnitude is the
    price difference over the start price, times 100. *)
Theorem returned_move_is_well_formed (candles : list Candle)
    (threshold : float) (lookback : nat) (m : Impulse) :
  detectImpulseMove candles threshold lookback = Ok (Some m) ->
  let window := sliceLast lookback candles in
  lookback <= length candles
  /\ startIndex m < endIndex m < length window
  /\ Spec.fle threshold (percentMove m)
  /\ match direction m with
     | up =>
         startPrice m = Spec.lowAt window (startIndex m)
         /\ endPrice m = Spec.highAt window (endIndex m)
         /\ percentMove m
            = ((endPrice m - startPrice m) / startPrice m * 100)%float
     | down =>
         startPrice m = Spec.highAt window (startIndex m)
         /\ endPrice m = Spec.lowAt window (endIndex m)
         /\ percentMove m
            = ((startPrice m - endPrice m) / startPrice m * 100)%float
     end.
Proof.
  intros H window. revert H. unfold detectImpulseMove. fold window.
  destruct (Nat.ltb_spec (length candles) lookback) as [?|Hn]; [done|].
  destruct (findHighestHigh window) as [eh|] eqn:Hh; [|done].
  destruct (findLowestLow window) as [el|] eqn:Hl; [|done].
  destruct (findHighestHigh_lookup _ _ Hh) as (ch & Hch & Hph & _).
  destruct (findLowestLow_lookup _ _ Hl) as (cl & Hcl & Hpl & _).
  pose proof (lookup_lt_Some _ _ _ Hch) as Hih.
  pose proof (lookup_lt_Some _ _ _ Hcl) as Hil.
  cbn [bind].
  assert (Hhigh : Spec.highAt window (index eh) = price eh)
    by (unfold Spec.highAt; by rewrite Hch).
  assert (Hlow : Spec.lowAt window (index el) = price el)
    by (unfold Spec.lowAt; by rewrite Hcl).
  destruct (Nat.ltb_spec (index el) (index eh)) as [Hlt|Hge].
  - destruct (threshold <=? _)%float eqn:Hthr.
    + intros E. injection E as <-. simpl. rewrite Hhigh, Hlow.
      repeat split; try done; lia.
    + destruct (Nat.ltb_spec (index eh) (index el)); [lia|done].
  - destruct (Nat.ltb_spec (index eh) (index el)) as [Hlt|_]; [|done].
    destruct (threshold <=? _)%float eqn:Hthr; [|done].
    intros E. injection E as <-. simpl. rewrite Hhigh, Hlow.
    repeat split; try done; lia.
Qed.

End ExtremaEdges.

(* ===================================================================== *)
(** * Trend and crossing tests *)
(* ===================================================================== *)

Section TrendAndCrossing.
Import Indicators.

Lemma calculateSMA_last values p :
  1 <= p <= length values ->
  last (calculateSMA values p)
  = Some (sum (drop (length values - p) values) / nat_to_float p)%float.
Proof.
  intros [Hp Hn]. destruct p as [|p']; [lia|]. unfold calculateSMA.
  rewrite last_lookup, length_map, length_seq, map_lookup.
  rewrite lookup_seq_lt by lia. simpl. unfold slice.
  replace (p' + pred (length values - p') - p')
    with (length values - S p') by lia.
  rewrite take_ge; [done|]. rewrite length_drop. lia.
Qed.

(** X10.  [isHigherTFBullish] is false for fewer than [p] candles; for a
    positive period of at most their number it tells whether the last close is
    strictly above the mean of the last [p] closes; it raises only for period
    0 on no candles. *)
Theorem isHigherTFBullish_spec (candles : list Candle) (p : nat) :
  (length candles < p -> isHigherTFBullish candles p = Ok false)
  /\ (1 <= p <= length candles ->
      exists c, last candles = Some c
        /\ isHigherTFBullish candles p
           = Ok (sum (map close (drop (length candles - p) candles))
                   / nat_to_float p <? close c)%float)
  /\ (isHigherTFBullish candles p = TypeError <-> p = 0 /\ candles = []).
Proof.
  unfold isHigherTFBullish. split; [|split].
  - intros Hn. by destruct (Nat.ltb_spec (length candles) p); [|lia].
  - intros [Hp Hn].
    destruct (Nat.ltb_spec (length candles) p) as [?|_]; [lia|].
    rewrite calculateSMA_last by (rewrite length_map; lia).
    rewrite length_map, skipn_map.
    destruct (last candles) as [c|] eqn:Hc.
    2:{ apply last_None in Hc. subst. simpl in Hn. lia. }
    exists c. split; [done|]. by rewrite (at_index_last _ _ Hc).
  - destruct (Nat.ltb_spec (length candles) p) as [Hlt|Hge].
    { split; [done|]. intros [-> ->]. simpl in Hlt. lia. }
    destruct (last (calculateSMA (map close candles) p)) eqn:Hs.
    2:{ split; [done|]. intros [-> ->]. done. }
    destruct candles as [|c0 rest].
    + simpl in Hge. assert (p = 0) as -> by lia. done.
    + destruct (at_index_lt (c0 :: rest) (length (c0 :: rest) - 1))
        as [c ->]; [simpl; lia|].
      split; [done|]. by intros [_ ?].
Qed.

Lemma existsb_window (f : RSIResult -> bool) (vs : list RSIResult) (a k : nat) :
  existsb f (take k (drop a vs)) = true
  <-> exists i r, a <= i /\ i < a + k /\ vs !! i = Some r /\ f r = true.
Proof.
  rewrite existsb_exists. split.
  - intros (r & Hin & Hf). apply list_elem_of_In in Hin.
    apply list_elem_of_lookup in Hin as [j Hj].
    apply lookup_take_Some in Hj as [Hj Hlt]. rewrite lookup_drop in Hj.
    exists (a + j), r. repeat split; try done; lia.
  - intros (i & r & Ha & Hk & Hi & Hf). exists r. split; [|done].
    apply list_elem_of_In, list_elem_of_lookup. exists (i - a).
    rewrite lookup_take_lt by lia. rewrite lookup_drop.
    by replace (a + (i - a)) with i by lia.
Qed.

(** X11.  [rsiJustCrossedBelow] never raises. With a positive lookback it is
    true exactly when there are more than [lookback] samples, the last one is
    not at or above the threshold, and one of the [lookback - 1] samples
    before it is; so with lookback 1 it is always false. *)
Theorem rsiJustCrossedBelow_spec (rsiValues : list RSIResult)
    (threshold : float) (lookback : nat) :
  rsiJustCrossedBelow rsiValues threshold lookback <> TypeError
  /\ (lookback = 1 -> rsiJustCrossedBelow rsiValues threshold lookback
                      = Ok false)
  /\ (1 <= lookback ->
      (rsiJustCrossedBelow rsiValues threshold lookback = Ok true
       <-> lookback + 1 <= length rsiValues
           /\ (exists cur, last rsiValues = Some cur
                 /\ (threshold <=? value cur)%float = false)
           /\ exists i r,
                length rsiValues - lookback <= i /\ i + 1 < length rsiValues
                /\ rsiValues !! i = Some r
                /\ (threshold <=? value r)%float = true)).
Proof.
  unfold rsiJustCrossedBelow.
  destruct (Nat.ltb_spec (length rsiValues) (lookback + 1)) as [Hlt|Hge].
  { split; [done|]. split; [done|]. intros _. split; [done|].
    intros (? & _). lia. }
  destruct (last rsiValues) as [cur|] eqn:Hcur.
  2:{ apply last_None in Hcur. subst. simpl in Hge. lia. }
  assert (Hat : forall recent, recent = sliceLast lookback rsiValues ->
            at_index recent (length recent - 1) = Ok cur).
  { intros recent ->. apply at_index_last. unfold sliceLast.
    destruct (Nat.eqb_spec lookback 0); [done|].
    rewrite last_lookup in Hcur |- *. rewrite lookup_drop, length_drop.
    rewrite <- Hcur. f_equal. lia. }
  rewrite (Hat _ eq_refl). cbn [bind].
  split; [by destruct (threshold <=? value cur)%float|].
  split.
  - intros ->. destruct (threshold <=? value cur)%float; [done|].
    unfold sliceLast. simpl. rewrite length_drop.
    by replace (length rsiValues - (length rsiValues - 1) - 1) with 0 by lia.
  - intros Hlb. rewrite sliceLast_recent by lia. rewrite length_drop.
    replace (length rsiValues - (length rsiValues - lookback) - 1)
      with (lookback - 1) by lia.
    destruct (threshold <=? value cur)%float eqn:Hthr.
    + split; [done|]. intros (_ & (cur' & E & Hc) & _). congruence.
    + split.
      * intros E. injection E as E. apply existsb_window in E
          as (i & r & Ha & Hk & Hi & Hf).
        split; [done|]. split; [by exists cur|].
        exists i, r. repeat split; try done; lia.
      * intros (_ & _ & i & r & Ha & Hk & Hi & Hf). f_equal.
        apply existsb_window. exists i, r. repeat split; try done; lia.
Qed.

End TrendAndCrossing.

(* ===================================================================== *)
(** * More on the detector *)
(* ===================================================================== *)

Section DetectorExtras.
Import Indicators BackburnerDetector.

Variable config : Config.
Variable clock : nat -> Z.

(** What a successful [detectNewSetup] went through. *)
Lemma detectNewSetup_inv sym tf candles rsiValues rsi px htf
    (activeSetups activeSetups' : gmap string BackburnerSetup) r :
  detectNewSetup config clock sym tf candles rsiValues rsi px htf activeSetups
  = Ok (Some r, activeSetups') ->
  exists impulse cStart cEnd,
    detectImpulseMove candles (minImpulsePercent config) 50
    = Ok (Some impulse)
    /\ direction impulse = up
    /\ (endPrice impulse <=? px)%float = false
    /\ (px <=? startPrice impulse)%float = false
    /\ ((rsi <? rsiDeepOversoldThreshold config)%float = true
        \/ (rsi <? rsiOversoldThreshold config)%float = true)
    /\ candles !! startIndex impulse = Some cStart
    /\ candles !! endIndex impulse = Some cEnd
    /\ activeSetups' = <[getSetupKey sym tf := r]> activeSetups
    /\ r = mkSetup sym tf
             (if (rsi <? rsiDeepOversoldThreshold config)%float
              then deep_oversold else triggered)
             (endPrice impulse) (startPrice impulse)
             (timestamp cStart) (timestamp cEnd) (percentMove impulse)
             rsi rsi px (Some px) (clock 1) (Some (clock 2)) (clock 3)
             (calculateAvgVolume
                (slice (startIndex impulse) (endIndex impulse + 1) candles)
                (length
                   (slice (startIndex impulse) (endIndex impulse + 1)
                      candles)))
             (calculateAvgVolume (drop (endIndex impulse + 1) candles)
                (length (drop (endIndex impulse + 1) candles)))
             (isVolumeContracting
                (slice (startIndex impulse) (endIndex impulse + 1) candles)
                (drop (endIndex impulse + 1) candles))
             htf.
Proof.
  unfold detectNewSetup.
  destruct (detectImpulseMove candles (minImpulsePercent config) 50)
    as [[impulse|]|]; try done.
  cbn [bind]. destruct (direction impulse) eqn:Hdir; [|done].
  destruct (endPrice impulse <=? px)%float eqn:Hhigh; [done|].
  destruct (px <=? startPrice impulse)%float eqn:Hlow; [done|].
  destruct (negb _ && _); [done|].
  unfold at_index.
  destruct (rsi <? rsiDeepOversoldThreshold config)%float eqn:Hdeep.
  - cbn [SetupState_eqb orb].
    destruct (candles !! startIndex impulse) as [cs|] eqn:Hcs; [|done].
    destruct (candles !! endIndex impulse) as [ce|] eqn:Hce; [|done].
    cbn [bind]. intros E. injection E as <- <-.
    exists impulse, cs, ce. repeat split; auto.
  - destruct (rsi <? rsiOversoldThreshold config)%float eqn:Hover; [|done].
    cbn [SetupState_eqb orb].
    destruct (candles !! startIndex impulse) as [cs|] eqn:Hcs; [|done].
    destruct (candles !! endIndex impulse) as [ce|] eqn:Hce; [|done].
    cbn [bind]. intros E. injection E as <- <-.
    exists impulse, cs, ce. repeat split; auto.
Qed.

(** With enough data, and whatever the map holds: the update of the record
    at the key, or a detection. *)
Lemma analyzeSymbol_dispatch sym tf candles higherTFCandles c rsi :
  50 <= length candles ->
  5 <= length (calculateRSI candles (rsiPeriod config)) ->
  last candles = Some c ->
  getCurrentRSI candles (rsiPeriod config) = Some rsi ->
  exists htf,
    (higherTFCandles = None -> htf = None)
    /\ forall activeSetups : gmap string BackburnerSetup,
         analyzeSymbol config clock sym tf candles higherTFCandles
           activeSetups
         = match activeSetups !! getSetupKey sym tf with
           | Some setup =>
               updateExistingSetup config clock setup candles rsi (close c)
                 htf activeSetups
           | None =>
               detectNewSetup config clock sym tf candles
                 (calculateRSI candles (rsiPeriod config)) rsi (close c) htf
                 activeSetups
           end.
Proof.
  intros Hn Hr Hc Hrsi.
  assert (exists htf,
            (higherTFCandles = None -> htf = None)
            /\ match higherTFCandles with
               | Some h => let* b := isHigherTFBullish h 20 in Ok (Some b)
               | None => Ok None
               end = Ok htf) as (htf & Hnone & Hhtf).
  { destruct higherTFCandles as [h|].
    - destruct (isHigherTFBullish_total h) as [b ->]. by exists (Some b).
    - by exists None. }
  exists htf. split; [done|]. intros m. unfold analyzeSymbol.
  destruct (Nat.ltb_spec (length candles) 50) as [?|_]; [lia|].
  rewrite Hrsi.
  destruct (Nat.ltb_spec (length (calculateRSI candles (rsiPeriod config))) 5)
    as [?|_]; [lia|].
  rewrite (at_index_last _ _ Hc). cbn [bind]. by rewrite Hhtf.
Qed.

(** Either the data is short, or price and oscillator are there. *)
Lemma data_cases candles :
  (length candles < 50
   \/ length (calculateRSI candles (rsiPeriod config)) < 5)
  \/ exists c rsi,
       50 <= length candles
       /\ 5 <= length (calculateRSI candles (rsiPeriod config))
       /\ last candles = Some c
       /\ getCurrentRSI candles (rsiPeriod config) = Some rsi.
Proof.
  destruct (decide (length candles < 50
                    \/ length (calculateRSI candles (rsiPeriod config)) < 5))
    as [Hshort|Hlong]; [by left|right].
  destruct (last candles) as [c|] eqn:Hc.
  2:{ apply last_None in Hc. subst. simpl in Hlong. lia. }
  destruct (getCurrentRSI candles (rsiPeriod config)) as [rsi|] eqn:Hrsi.
  2:{ unfold getCurrentRSI in Hrsi. apply fmap_None, last_None in Hrsi.
      rewrite Hrsi in Hlong. simpl in Hlong. lia. }
  exists c, rsi. repeat split; try done; lia.
Qed.


(** X13.  An update returns the record of the key with its identity, impulse
    bounds, trigger values and volumes as they were; only oscillator, price,
    update time, state and, when higher-timeframe candles are given, the
    trend flag change. *)
Theorem update_keeps_fields sym tf candles higherTFCandles
    (activeSetups activeSetups' : gmap string BackburnerSetup) setup r :
  activeSetups !! getSetupKey sym tf = Some setup ->
  analyzeSymbol config clock sym tf candles higherTFCandles activeSetups
  = Ok (Some r, activeSetups') ->
  symbol r = symbol setup /\ timeframe r = timeframe setup
  /\ impulseHigh r = impulseHigh setup /\ impulseLow r = impulseLow setup
  /\ impulseStartTime r = impulseStartTime setup
  /\ impulseEndTime r = impulseEndTime setup
  /\ impulsePercentMove r = impulsePercentMove setup
  /\ rsiAtTrigger r = rsiAtTrigger setup /\ entryPrice r = entryPrice setup
  /\ detectedAt r = detectedAt setup /\ triggeredAt r = triggeredAt setup
  /\ impulseAvgVolume r = impulseAvgVolume setup
  /\ pullbackAvgVolume r = pullbackAvgVolume setup
  /\ volumeContracting r = volumeContracting setup
  /\ lastUpdated r = clock 1
  /\ getCurrentRSI candles (rsiPeriod config) = Some (currentRSI r)
  /\ close <$> last candles = Some (currentPrice r)
  /\ (higherTFCandles = None -> higherTFBullish r = higherTFBullish setup).
Proof.
  intros Hm Hr.
  destruct (data_cases candles) as [Hshort|(c & rsi & Hn & Hs & Hc & Hrsi)].
  { rewrite analyzeSymbol_short in Hr by done. done. }
  destruct (analyzeSymbol_dispatch sym tf candles higherTFCandles c rsi
              Hn Hs Hc Hrsi) as (htf & Hnone & E).
  rewrite E, Hm in Hr. unfold updateExistingSetup in Hr.
  rewrite (isSetupInvalidated_eq _ _ _ _ Hc) in Hr. cbn [bind] in Hr.
  rewrite Hrsi, Hc.
  assert (exists st,
            r = with_state (refresh setup rsi (close c) (clock 1) htf) st)
    as [st ->].
  { destruct (_ || _ || _) in Hr; [injection Hr as <- _; by eexists|].
    destruct (SetupState_eqb _ played_out) in Hr;
      injection Hr as <- _; by eexists. }
  simpl. repeat split; try done.
  intros Hnone'. by rewrite (Hnone Hnone').
Qed.

(** Detection does not look at the map: there is one answer for every map
    without a record at the key. *)
Lemma analyzeSymbol_fresh sym tf candles higherTFCandles :
  exists res,
    forall activeSetups : gmap string BackburnerSetup,
      activeSetups !! getSetupKey sym tf = None ->
      analyzeSymbol config clock sym tf candles higherTFCandles activeSetups
      = Ok (res,
            match res with
            | Some r => <[getSetupKey sym tf := r]> activeSetups
            | None => activeSetups
            end).
Proof.
  destruct (data_cases candles) as [Hshort|(c & rsi & Hn & Hs & Hc & Hrsi)].
  { exists None. intros m _. by apply analyzeSymbol_short. }
  destruct (analyzeSymbol_dispatch sym tf candles higherTFCandles c rsi
              Hn Hs Hc Hrsi) as (htf & _ & E).
  destruct (detectNewSetup_outcome config clock sym tf candles
              (calculateRSI candles (rsiPeriod config)) rsi (close c) htf ∅)
    as [Hnone|(s & Hsome & _)].
  - exists None. intros m Hm. rewrite E, Hm.
    revert Hnone. unfold detectNewSetup.
    destruct (detectImpulseMove _ _ _) as [[impulse|]|]; try done.
    cbn [bind]. destruct (direction impulse); [|done].
    destruct (_ <=? _)%float; [done|].
    destruct (_ <=? _)%float; [done|].
    destruct (negb _ && _); [done|].
    destruct (SetupState_eqb _ watching); [done|].
    destruct (at_index candles (startIndex impulse)); [|done].
    destruct (at_index candles (endIndex impulse)); [|done].
    done.
  - exists (Some s). intros m Hm. rewrite E, Hm.
    destruct (detectNewSetup_inv _ _ _ _ _ _ _ _ _ _ Hsome)
      as (impulse & cs & ce & Himp & Hdir & Hhigh & Hlow & Hst & Hcs & Hce
          & _ & Hs').
    unfold detectNewSetup. rewrite Himp. cbn [bind].
    rewrite Hdir, Hhigh, Hlow. unfold at_index. rewrite Hcs, Hce.
    revert Hsome. unfold detectNewSetup. rewrite Himp. cbn [bind].
    rewrite Hdir, Hhigh, Hlow. unfold at_index. rewrite Hcs, Hce.
    destruct (negb _ && _); [done|].
    destruct (SetupState_eqb _ watching); [done|].
    cbn [bind]. intros H. injection H as <-. done.
Qed.

End DetectorExtras.

Section DetectorComposition.
Import Indicators BackburnerDetector.

Variable config : Config.

(** X14.  On every map the public operations reach, [analyzeSymbol] for one
    symbol and timeframe leaves the entries of all other keys as they are. *)
Theorem analyzeSymbol_touches_one_key (ops : list Spec.Op) clock sym tf
    candles higherTFCandles res
    (activeSetups' : gmap string BackburnerSetup) :
  analyzeSymbol config clock sym tf candles higherTFCandles
    (Spec.runOps config ops ∅)
  = Ok (res, activeSetups') ->
  forall k, k <> getSetupKey sym tf ->
    activeSetups' !! k = Spec.runOps config ops ∅ !! k.
Proof.
  intros H k Hk.
  assert (Hinv : Spec.storeInvariant (Spec.runOps config ops ∅)).
  { apply runOps_invariant. intros k' r Hk'. by rewrite lookup_empty in Hk'. }
  destruct (analyzeSymbol_outcome config clock sym tf candles higherTFCandles
              _ Hinv) as [E|(r & _ & _ & [[E _]|[E _]])];
    rewrite E in H; injection H as _ <-.
  - done.
  - by rewrite lookup_delete_ne.
  - by rewrite lookup_insert_ne.
Qed.

(** X15.  After [removeSetup] the key starts clean: [analyzeSymbol] returns
    what it returns on an empty detector, and stores it the same way. *)
Theorem removed_key_starts_clean clock sym tf candles higherTFCandles :
  exists res,
    analyzeSymbol config clock sym tf candles higherTFCandles ∅
    = Ok (res,
          match res with
          | Some r => <[getSetupKey sym tf := r]> ∅
          | None => ∅
          end)
    /\ forall activeSetups : gmap string BackburnerSetup,
         analyzeSymbol config clock sym tf candles higherTFCandles
           (removeSetup sym tf activeSetups)
         = Ok (res,
               match res with
               | Some r =>
                   <[getSetupKey sym tf := r]> (removeSetup sym tf activeSetups)
               | None => removeSetup sym tf activeSetups
               end).
Proof.
  destruct (analyzeSymbol_fresh config clock sym tf candles higherTFCandles)
    as [res Hres].
  exists res. split.
  - apply Hres, lookup_empty.
  - intros m. apply Hres. unfold removeSetup. apply lookup_delete_eq.
Qed.

(** X16.  On every map the public operations reach, [removeSetup] after
    [analyzeSymbol] for the same symbol and timeframe leaves what
    [removeSetup] alone leaves; if the key held no record before, that is the
    map as it was. *)
Theorem removeSetup_undoes_analyzeSymbol (ops : list Spec.Op) clock sym tf
    candles higherTFCandles res
    (activeSetups' : gmap string BackburnerSetup) :
  analyzeSymbol config clock sym tf candles higherTFCandles
    (Spec.runOps config ops ∅)
  = Ok (res, activeSetups') ->
  removeSetup sym tf activeSetups'
  = removeSetup sym tf (Spec.runOps config ops ∅)
  /\ (Spec.runOps config ops ∅ !! getSetupKey sym tf = None ->
      removeSetup sym tf activeSetups' = Spec.runOps config ops ∅).
Proof.
  intros H.
  assert (Hinv : Spec.storeInvariant (Spec.runOps config ops ∅)).
  { apply runOps_invariant. intros k' r Hk'. by rewrite lookup_empty in Hk'. }
  assert (E : removeSetup sym tf activeSetups'
              = removeSetup sym tf (Spec.runOps config ops ∅)).
  { unfold removeSetup.
    destruct (analyzeSymbol_outcome config clock sym tf candles
                higherTFCandles _ Hinv) as [E|(r & _ & _ & [[E _]|[E _]])];
      rewrite E in H; injection H as _ <-.
    - done.
    - apply delete_delete_eq.
    - apply delete_insert_eq. }
  split; [done|]. intros Hnone. rewrite E. unfold removeSetup.
  by apply delete_id.
Qed.

(** X17.  With the deep threshold at most the oversold threshold, a [bouncing]
    record never returns to [triggered] or [deep_oversold]: an update leaves
    it [bouncing] or ends it. *)
Theorem bouncing_never_retriggers clock sym tf candles higherTFCandles
    (activeSetups activeSetups' : gmap string BackburnerSetup) setup r :
  Spec.fle (rsiDeepOversoldThreshold config) (rsiOversoldThreshold config) ->
  activeSetups !! getSetupKey sym tf = Some setup ->
  state setup = bouncing ->
  analyzeSymbol config clock sym tf candles higherTFCandles activeSetups
  = Ok (Some r, activeSetups') ->
  state r = bouncing \/ state r = played_out.
Proof.
  intros Hcfg Hm Hst Hr.
  destruct (data_cases config candles)
    as [Hshort|(c & rsi & Hn & Hs & Hc & Hrsi)].
  { rewrite analyzeSymbol_short in Hr by done. done. }
  destruct (analyzeSymbol_dispatch config clock sym tf candles
              higherTFCandles c rsi Hn Hs Hc Hrsi) as (htf & _ & E).
  rewrite E, Hm in Hr. unfold updateExistingSetup in Hr.
  rewrite (isSetupInvalidated_eq _ _ _ _ Hc) in Hr. cbn [bind] in Hr.
  cbn [refresh state impulseLow impulseHigh currentRSI] in Hr.
  rewrite Hst in Hr. cbn [SetupState_eqb orb andb] in Hr.
  destruct (close c <? impulseLow setup)%float.
  { injection Hr as <- _. by right. }
  cbn [orb] in Hr.
  destruct (rsi <? rsiOversoldThreshold config)%float eqn:Hover.
  { injection Hr as <- _. by right. }
  rewrite determineSetupState_table in Hr.
  cbn [refresh state with_state] in Hr. rewrite Hst in Hr.
  unfold Spec.progressionTable in Hr. rewrite Hover in Hr.
  destruct (rsi <? rsiDeepOversoldThreshold config)%float eqn:Hdeep.
  { pose proof (flt_fle_trans _ _ _ Hdeep Hcfg) as Hlt.
    unfold Spec.flt in Hlt. congruence. }
  destruct (50 <? rsi)%float; simpl in Hr; injection Hr as <- _; auto.
Qed.

(** X18.  [analyzeSymbol] returns [null] and changes nothing for fewer than 50
    candles or fewer than [rsiPeriod + 5]; with at least that many it always
    returns the record of a key that holds one. *)
Theorem analyzeSymbol_candle_count clock sym tf candles higherTFCandles
    (activeSetups : gmap string BackburnerSetup) :
  (length candles < Nat.max 50 (rsiPeriod config + 5) ->
   analyzeSymbol config clock sym tf candles higherTFCandles activeSetups
   = Ok (None, activeSetups))
  /\ (Nat.max 50 (rsiPeriod config + 5) <= length candles ->
      forall setup,
        activeSetups !! getSetupKey sym tf = Some setup ->
        exists r activeSetups',
          analyzeSymbol config clock sym tf candles higherTFCandles
            activeSetups
          = Ok (Some r, activeSetups')).
Proof.
  split.
  - intros Hn. apply analyzeSymbol_short.
    destruct (decide (length candles < 50)) as [?|Hge]; [by left|right].
    destruct (decide (length candles < rsiPeriod config + 1)) as [Hs|Hl].
    + rewrite calculateRSI_short by done. simpl. lia.
    + rewrite calculateRSI_length by lia. lia.
  - intros Hn setup Hm.
    assert (Hlen : length (calculateRSI candles (rsiPeriod config))
                   = length candles - rsiPeriod config)
      by (apply calculateRSI_length; lia).
    destruct (data_cases config candles)
      as [Hshort|(c & rsi & Hn' & Hs & Hc & Hrsi)]; [lia|].
    destruct (analyzeSymbol_dispatch config clock sym tf candles
                higherTFCandles c rsi Hn' Hs Hc Hrsi) as (htf & _ & E).
    rewrite E, Hm. unfold updateExistingSetup.
    rewrite (isSetupInvalidated_eq _ _ _ _ Hc). cbn [bind].
    destruct (_ || _ || _); [by do 2 eexists|].
    destruct (SetupState_eqb _ played_out); by do 2 eexists.
Qed.

End DetectorComposition.

(* ===================================================================== *)
(** * The rate limiter without a minimum delay *)
(* ===================================================================== *)

Section LimiterWithoutDelay.
Import RateLimiter.

Lemma executed_app es1 es2 :
  executed (es1 ++ es2) = executed es1 ++ executed es2.
Proof.
  induction es1 as [|[id now|id now|id now] es1 IH]; simpl; by rewrite ?IH.
Qed.

Ltac proj :=
  cbn [limiter running maxConcurrent queue minDelayMs lastRequestTime
       sleeping inflight dispatches time eventTime].

Lemma step_noDelayInvariant maxC delay xs e w w' :
  (delay <= 0)%Z ->
  noDelayInvariant maxC delay xs w ->
  step e w = Some w' ->
  noDelayInvariant maxC delay (xs ++ executed [e]) w'.
Proof.
  intros Hd (HM & HD & Hs & Hlast & Hrun & Hq & Hxs). unfold step.
  destruct (Z.ltb_spec (eventTime e) (time w)) as [?|Htime]; [done|].
  destruct w as [[q rn maxc del last] sl infl disp tm].
  simpl in HM, HD, Hs, Hlast, Hrun, Hq, Hxs. subst maxc del sl.
  destruct e as [id now|id now|id now]; simpl in Htime.
  - intros E. injection E as <-. unfold execute, at_time. proj.
    destruct (Nat.ltb_spec rn maxC) as [Hlt|Hge].
    + assert (q = []) as -> by (destruct q; [done|]; exfalso;
                                  specialize (Hq ltac:(done)); lia).
      unfold RateLimiter.run. proj.
      destruct (Z.ltb_spec (now - last) delay) as [?|_]; [lia|].
      unfold dispatch, noDelayInvariant. proj.
      repeat split; try done; try lia.
      rewrite app_nil_r in Hxs. cbn [rev executed].
      by rewrite map_app, Hxs, !app_nil_r.
    + unfold noDelayInvariant. proj.
      repeat split; try done; try lia.
      cbn [executed]. by rewrite app_assoc, Hxs.
  - unfold dueTime. simpl. done.
  - destruct (existsb _ _); [|done]. intros E. injection E as <-.
    unfold settle, at_time, processQueue. proj. cbn [executed].
    rewrite app_nil_r.
    destruct q as [|next rest].
    + unfold noDelayInvariant. proj. repeat split; try done; lia.
    + specialize (Hq ltac:(done)). subst rn.
      destruct (Nat.ltb_spec (maxC - 1) maxC) as [Hlt|Hge].
      * unfold RateLimiter.run. proj.
        destruct (Z.ltb_spec (now - last) delay) as [?|_]; [lia|].
        unfold dispatch, noDelayInvariant. proj.
        repeat split; try done; try lia.
        cbn [rev]. rewrite map_app, <- app_assoc. exact Hxs.
      * unfold noDelayInvariant. proj. repeat split; try done; lia.
Qed.

Lemma steps_noDelayInvariant maxC delay es : forall xs w w',
  (delay <= 0)%Z ->
  noDelayInvariant maxC delay xs w ->
  steps es w = Some w' ->
  noDelayInvariant maxC delay (xs ++ executed es) w'.
Proof.
  induction es as [|e es IH]; intros xs w w' Hd Hinv Hsteps.
  - simpl in *. injection Hsteps as <-. by rewrite app_nil_r.
  - simpl in Hsteps. destruct (step e w) as [w1|] eqn:Hstep; [|done].
    change (e :: es) with ([e] ++ es). rewrite executed_app, app_assoc.
    eapply IH; [done| |done]. by eapply step_noDelayInvariant.
Qed.

Lemma create_noDelayInvariant maxC delay :
  noDelayInvariant maxC delay [] (create maxC delay).
Proof. unfold noDelayInvariant, create. simpl. repeat split; try done; lia. Qed.

(** X19.  A limiter created with a minimum delay of at most 0 keeps its cap:
    after any run, at most [maxConcurrent] requests are counted as running,
    none is sleeping, and requests wait in the queue only while the count is
    at the cap. *)
Theorem no_delay_keeps_the_cap (maxC : nat) (delay : Z) (es : list Event)
    (w : World) :
  (delay <= 0)%Z ->
  steps es (create maxC delay) = Some w ->
  running (limiter w) <= maxC
  /\ sleeping w = []
  /\ (queue (limiter w) <> [] -> running (limiter w) = maxC).
Proof.
  intros Hd Hsteps.
  destruct (steps_noDelayInvariant maxC delay es [] _ w Hd
              (create_noDelayInvariant maxC delay) Hsteps)
    as (_ & _ & Hs & _ & Hrun & Hq & _).
  done.
Qed.

(** X20.  A limiter created with a minimum delay of at most 0 serves in arrival
    order: after any run, the requests dispatched so far, in the order of
    their dispatch, followed by the queue, are the requests in the order
    [execute] was called for them. *)
Theorem no_delay_is_first_in_first_out (maxC : nat) (delay : Z)
    (es : list Event) (w : World) :
  (delay <= 0)%Z ->
  steps es (create maxC delay) = Some w ->
  map fst (rev (dispatches w)) ++ queue (limiter w) = executed es.
Proof.
  intros Hd Hsteps.
  destruct (steps_noDelayInvariant maxC delay es [] _ w Hd
              (create_noDelayInvariant maxC delay) Hsteps)
    as (_ & _ & _ & _ & _ & _ & Hxs).
  done.
Qed.

End LimiterWithoutDelay.

(* ===================================================================== *)
(** * Fetching with retries *)
(* ===================================================================== *)

Section Retries.
Import Acquisition.

Lemma lastCaughtIn_shift fetch n : forall i,
  lastCaughtIn fetch i (S n)
  = match lastCaughtIn fetch (S i) n with
    | Some e => Some e
    | None => caught (fetch i)
    end.
Proof.
  induction n as [|n IH]; intros i.
  - simpl. rewrite Nat.add_0_r. by destruct (caught (fetch i)).
  - change (lastCaughtIn fetch i (S (S n)))
      with (match caught (fetch (i + S n)) with
            | Some e => Some e
            | None => lastCaughtIn fetch i (S n)
            end).
    rewrite IH. simpl. replace (S (i + n)) with (i + S n) by lia.
    by destruct (caught (fetch (i + S n))).
Qed.

Lemma retryLoop_failed fetch remaining : forall i lastError slept,
  (forall j, i <= j < i + remaining -> failed fetch j) ->
  retryLoop fetch remaining i lastError slept
  = mkRun
      (Threw (match lastCaughtIn fetch i remaining with
              | Some e => e
              | None =>
                  match lastError with
                  | Some e => e
                  | None => FailedAfterRetries
                  end
              end))
      (slept ++ map (backoff fetch) (seq i remaining))
      (i + remaining).
Proof.
  induction remaining as [|rem IH]; intros i lastError slept Hfail.
  - simpl. by rewrite app_nil_r, Nat.add_0_r.
  - rewrite lastCaughtIn_shift. cbn [retryLoop seq map].
    pose proof (Hfail i ltac:(lia)) as Hi. unfold failed in Hi.
    assert (Hrest : forall j, S i <= j < S i + rem -> failed fetch j)
      by (intros j Hj; apply Hfail; lia).
    unfold backoff at 1. unfold caught.
    destruct (fetch i) as [response|error].
    + rewrite (Hi response eq_refl).
      destruct (status response =? 429)%Z; rewrite IH by done;
        (f_equal; try lia; try (by rewrite <- app_assoc);
         by destruct (lastCaughtIn fetch (S i) rem)).
    + rewrite IH by done.
      f_equal; try lia; try (by rewrite <- app_assoc);
        by destruct (lastCaughtIn fetch (S i) rem).
Qed.

Lemma retryLoop_first_ok fetch response : forall n i remaining lastError slept,
  n < remaining ->
  (forall j, i <= j < i + n -> failed fetch j) ->
  fetch (i + n) = Resolved response -> ok response = true ->
  retryLoop fetch remaining i lastError slept
  = mkRun (Returned response) (slept ++ map (backoff fetch) (seq i n))
      (S (i + n)).
Proof.
  induction n as [|n IH]; intros i remaining lastError slept Hn Hfail Hk Hok.
  - destruct remaining as [|rem]; [lia|]. simpl.
    rewrite Nat.add_0_r in Hk |- *. by rewrite Hk, Hok, app_nil_r.
  - destruct remaining as [|rem]; [lia|]. cbn [retryLoop seq map].
    pose proof (Hfail i ltac:(lia)) as Hi. unfold failed in Hi.
    assert (Hrest : forall j, S i <= j < S i + n -> failed fetch j)
      by (intros j Hj; apply Hfail; lia).
    replace (i + S n) with (S i + n) in Hk |- * by lia.
    unfold backoff at 1. unfold caught.
    destruct (fetch i) as [r|error].
    + rewrite (Hi r eq_refl).
      destruct (status r =? 429)%Z;
        rewrite (IH (S i) rem _ _ ltac:(lia) Hrest Hk Hok);
        (f_equal; by rewrite <- app_assoc).
    + rewrite (IH (S i) rem _ _ ltac:(lia) Hrest Hk Hok).
      f_equal; by rewrite <- app_assoc.
Qed.

(** X21.  [fetchWithRetry] returns the first [ok] response among the first
    [retries] attempts: if attempt [k] is the first to succeed it makes
    [k + 1] calls and, before it, sleeps after each failed attempt [j] for
    [1000 * (j + 1)] after a 429 and [500 * (j + 1)] otherwise. *)
Theorem fetchWithRetry_first_ok (fetch : nat -> FetchResult)
    (retries k : nat) (response : Response) :
  k < retries ->
  (forall j, j < k -> failed fetch j) ->
  fetch k = Resolved response -> ok response = true ->
  fetchWithRetry fetch retries
  = mkRun (Returned response) (map (backoff fetch) (seq 0 k)) (S k).
Proof.
  intros Hk Hfail Hfetch Hok. unfold fetchWithRetry.
  apply (retryLoop_first_ok fetch response k 0 retries None []);
    try done.
  intros j Hj. apply Hfail. lia.
Qed.

(** X22.  When none of the first [retries] attempts succeeds, [fetchWithRetry]
    makes exactly [retries] calls, sleeps after every one of them, the last
    included, and throws the error caught last; a 429 is not caught, so when
    every attempt is answered with 429 (or [retries] is 0) the error is the
    generic 'Failed after retries'. *)
Theorem fetchWithRetry_exhausted (fetch : nat -> FetchResult)
    (retries : nat) :
  (forall j, j < retries -> failed fetch j) ->
  fetchWithRetry fetch retries
  = mkRun
      (Threw (match lastCaughtIn fetch 0 retries with
              | Some e => e
              | None => FailedAfterRetries
              end))
      (map (backoff fetch) (seq 0 retries)) retries
  /\ ((forall j, j < retries -> caught (fetch j) = None) ->
      settlement (fetchWithRetry fetch retries) = Threw FailedAfterRetries
      /\ sleeps (fetchWithRetry fetch retries)
         = map (fun j => (1000 * (Z.of_nat j + 1))%Z) (seq 0 retries)).
Proof.
  intros Hfail.
  assert (E : fetchWithRetry fetch retries
              = mkRun
                  (Threw (match lastCaughtIn fetch 0 retries with
                          | Some e => e
                          | None => FailedAfterRetries
                          end))
                  (map (backoff fetch) (seq 0 retries)) retries).
  { unfold fetchWithRetry. rewrite retryLoop_failed; [done|].
    intros j Hj. apply Hfail. lia. }
  split; [done|]. intros Hnone. rewrite E. simpl. split.
  - assert (forall n, n <= retries -> lastCaughtIn fetch 0 n = None) as ->;
      [|done|done].
    induction n as [|n IH]; intros Hn; [done|]. simpl.
    rewrite Hnone by lia. apply IH. lia.
  - apply map_ext_in. intros j Hj%in_seq. unfold backoff.
    by rewrite Hnone by lia.
Qed.

End Retries.

(* ===================================================================== *)
(** * The further properties at concrete inputs *)
(* ===================================================================== *)

Section MoreInstances.
Import Indicators BackburnerDetector Examples.

Lemma calculateSMA_windows_witness :
  calculateSMA [1; 2; 3; 4]%float 2 !! 1 = Some 2.5%float.
Proof.
  destruct (calculateSMA_windows [1; 2; 3; 4]%float 2) as [_ H].
  destruct H as [_ H]; [lia|]. rewrite H; [reflexivity|simpl; lia].
Defined.

Lemma calculateEMA_spec_witness :
  length (calculateEMA [1; 2; 3; 4]%float 2) = 3
  /\ calculateEMA [1]%float 2 = [].
Proof.
  split.
  - destruct (calculateEMA_spec [1; 2; 3; 4]%float 2) as [_ H].
    destruct H as [H _]; [simpl; lia|]. exact H.
  - apply (calculateEMA_spec [1]%float 2). simpl. lia.
Defined.

Lemma getCurrentRSI_spec_witness : getCurrentRSI (take 14 rising) 14 = None.
Proof.
  apply (proj1 (getCurrentRSI_spec (take 14 rising) 14)). vm_compute. lia.
Defined.

Lemma never_falling_rsi_is_100_witness :
  exists r, last (calculateRSI rising 14) = Some r /\ value r = 100%float.
Proof.
  eexists. split; [vm_compute; reflexivity|].
  apply (never_falling_rsi_is_100 rising).
  - intros i a b Ha Hb.
    pose proof (closeChanges_lookup _ _ _ _ Ha Hb) as H.
    assert (F : forallb (fun ch => negb (ch <? 0)%float)
                  (closeChanges rising) = true) by (vm_compute; reflexivity).
    rewrite forallb_forall in F.
    apply negb_true_iff, F, list_elem_of_In.
    by eapply list_elem_of_lookup_2.
  - apply (list_elem_of_lookup_2 _ 35). vm_compute. reflexivity.
Defined.

Lemma calculateAvgVolume_means_witness :
  PrimFloat.is_nan (calculateAvgVolume [] 7) = true
  /\ calculateAvgVolume (take 3 rising) 7 = 10%float.
Proof.
  destruct (calculateAvgVolume_means [] 7) as (_ & _ & H1).
  destruct (calculateAvgVolume_means (take 3 rising) 7) as (H2 & _).
  split; [by apply H1|]. rewrite H2; [reflexivity|simpl; lia].
Defined.

Lemma fourCandles_numbers : Spec.pricesAreNumbers fourCandles.
Proof.
  intros c Hc. unfold fourCandles in Hc.
  repeat (apply elem_of_cons in Hc as [->|Hc]); try (by split).
  by apply elem_of_nil in Hc.
Qed.

Lemma extrema_are_first_occurrences_witness :
  Spec.firstHighest fourCandles 0 /\ Spec.firstLowest fourCandles 0.
Proof.
  destruct (extrema_are_first_occurrences fourCandles) as (_ & _ & H).
  destruct (H fourCandles_numbers) as [Hh Hl]. split.
  - by destruct (Hh (mkExtremum 400 0 0) eq_refl) as [? _].
  - by destruct (Hl (mkExtremum 1 0 0) eq_refl) as [? _].
Defined.

Lemma nan_first_candle_is_the_extremum_witness :
  findHighestHigh (mkCandle 9 1 PrimFloat.nan 1 1 1 :: fourCandles)
  = Ok (mkExtremum PrimFloat.nan 0 9).
Proof.
  apply (nan_first_candle_is_the_extremum
           (mkCandle 9 1 PrimFloat.nan 1 1 1) fourCandles).
  reflexivity.
Defined.

Lemma detectImpulseMove_raises_iff_witness :
  detectImpulseMove [] 5 0 = TypeError.
Proof. by apply (detectImpulseMove_raises_iff [] 5 0). Defined.

Lemma returned_move_is_well_formed_witness :
  3 <= length fourCandles /\ 0 < 2 < length (sliceLast 3 fourCandles).
Proof.
  destruct (returned_move_is_well_formed fourCandles 5 3
              (mkImpulse 0 2 90 150 ((150 - 90) / 90 * 100) up))
    as (H1 & H2 & _); [reflexivity|].
  split; [exact H1|exact H2].
Defined.

Lemma isHigherTFBullish_spec_witness : isHigherTFBullish rising 20 = Ok true.
Proof.
  destruct (isHigherTFBullish_spec rising 20) as (_ & H & _).
  destruct H as (c & Hc & ->); [vm_compute; lia|].
  vm_compute in Hc. injection Hc as <-. vm_compute. reflexivity.
Defined.

Lemma rsiJustCrossedBelow_spec_witness :
  rsiJustCrossedBelow crossing 30 3 = Ok true
  /\ rsiJustCrossedBelow crossing 30 1 = Ok false.
Proof.
  destruct (rsiJustCrossedBelow_spec crossing 30 3) as (_ & _ & H3).
  destruct (rsiJustCrossedBelow_spec crossing 30 1) as (_ & H1 & _).
  split; [|by apply H1]. apply H3; [lia|].
  split; [simpl; lia|]. split; [by eexists|].
  exists 2, (mkRSI 31 2). repeat split; simpl; lia.
Defined.


Lemma update_keeps_fields_witness :
  exists r activeSetups',
    analyzeSymbol config clock "BTCUSDT" TF_5m rising None
      (store triggered 50)
    = Ok (Some r, activeSetups')
    /\ rsiAtTrigger r = 25%float /\ entryPrice r = Some 100%float.
Proof.
  do 2 eexists. split; [vm_compute; reflexivity|].
  edestruct (update_keeps_fields config clock "BTCUSDT" TF_5m rising None
               (store triggered 50)) as (_ & _ & _ & _ & _ & _ & _ & Ht & He
                                         & _);
    [vm_compute; reflexivity|vm_compute; reflexivity|].
  split; [exact Ht|exact He].
Defined.

Lemma analyzeSymbol_touches_one_key_witness :
  exists res activeSetups',
    analyzeSymbol config clock "ETHUSDT" TF_5m repeatedOversold None
      (Spec.runOps config
         [Spec.OpAnalyze clock "BTCUSDT" TF_5m repeatedOversold None] ∅)
    = Ok (res, activeSetups')
    /\ activeSetups' !! "BTCUSDT-5m"
       = Spec.runOps config
           [Spec.OpAnalyze clock "BTCUSDT" TF_5m repeatedOversold None] ∅
         !! "BTCUSDT-5m".
Proof.
  do 2 eexists. split; [vm_compute; reflexivity|].
  eapply (analyzeSymbol_touches_one_key config
            [Spec.OpAnalyze clock "BTCUSDT" TF_5m repeatedOversold None]
            clock "ETHUSDT" TF_5m repeatedOversold None).
  - vm_compute; reflexivity.
  - vm_compute. discriminate.
Defined.

Lemma removed_key_starts_clean_witness :
  exists res,
    analyzeSymbol config clock "BTCUSDT" TF_5m repeatedOversold None ∅
    = Ok (res,
          match res with
          | Some r => <[getSetupKey "BTCUSDT" TF_5m := r]> ∅
          | None => ∅
          end)
    /\ analyzeSymbol config clock "BTCUSDT" TF_5m repeatedOversold None
         (removeSetup "BTCUSDT" TF_5m (store bouncing 50))
       = Ok (res,
             match res with
             | Some r =>
                 <[getSetupKey "BTCUSDT" TF_5m := r]>
                   (removeSetup "BTCUSDT" TF_5m (store bouncing 50))
             | None => removeSetup "BTCUSDT" TF_5m (store bouncing 50)
             end).
Proof.
  destruct (removed_key_starts_clean config clock "BTCUSDT" TF_5m
              repeatedOversold None) as (res & H1 & H2).
  exists res. split; [exact H1|apply H2].
Defined.

Lemma removeSetup_undoes_analyzeSymbol_witness :
  exists res activeSetups',
    analyzeSymbol config clock "BTCUSDT" TF_5m repeatedOversold None ∅
    = Ok (res, activeSetups')
    /\ removeSetup "BTCUSDT" TF_5m activeSetups' = ∅.
Proof.
  do 2 eexists. split; [vm_compute; reflexivity|].
  edestruct (removeSetup_undoes_analyzeSymbol config [] clock "BTCUSDT"
               TF_5m repeatedOversold None) as [_ H];
    [vm_compute; reflexivity|].
  apply H. reflexivity.
Defined.

Lemma bouncing_never_retriggers_witness :
  exists r activeSetups',
    analyzeSymbol config clock "BTCUSDT" TF_5m rising None
      (store bouncing 50)
    = Ok (Some r, activeSetups')
    /\ (state r = bouncing \/ state r = played_out).
Proof.
  do 2 eexists. split; [vm_compute; reflexivity|].
  eapply (bouncing_never_retriggers config clock "BTCUSDT" TF_5m rising None
            (store bouncing 50)).
  - reflexivity.
  - vm_compute; reflexivity.
  - reflexivity.
  - vm_compute; reflexivity.
Defined.

Lemma analyzeSymbol_candle_count_witness :
  analyzeSymbol config clock "BTCUSDT" TF_5m (take 18 rising) None
    (store bouncing 50)
  = Ok (None, store bouncing 50).
Proof.
  apply (analyzeSymbol_candle_count config clock "BTCUSDT" TF_5m
           (take 18 rising) None (store bouncing 50)).
  vm_compute. lia.
Defined.

Lemma no_delay_keeps_the_cap_witness :
  exists w,
    RateLimiter.steps threeRequests (RateLimiter.create 2 0) = Some w
    /\ RateLimiter.running (RateLimiter.limiter w) <= 2.
Proof.
  eexists. split; [vm_compute; reflexivity|].
  eapply (no_delay_keeps_the_cap 2 0 threeRequests); [lia|].
  vm_compute; reflexivity.
Defined.

Lemma no_delay_is_first_in_first_out_witness :
  exists w,
    RateLimiter.steps threeRequests (RateLimiter.create 2 0) = Some w
    /\ map fst (rev (RateLimiter.dispatches w))
       ++ RateLimiter.queue (RateLimiter.limiter w) = [0; 1; 2].
Proof.
  eexists. split; [vm_compute; reflexivity|].
  eapply (no_delay_is_first_in_first_out 2 0 threeRequests); [lia|].
  vm_compute; reflexivity.
Defined.

Lemma fetchWithRetry_first_ok_witness :
  Acquisition.fetchWithRetry thirdTimeLucky 3
  = Acquisition.mkRun
      (Acquisition.Returned (Acquisition.mkResponse true 200 "OK"))
      [1000; 1000]%Z 3.
Proof.
  apply (fetchWithRetry_first_ok thirdTimeLucky 3 2
           (Acquisition.mkResponse true 200 "OK")).
  - lia.
  - intros [|[|j]] Hj response E; [| |lia]; simpl in E; by simplify_eq.
  - reflexivity.
  - reflexivity.
Defined.

Lemma fetchWithRetry_exhausted_witness :
  Acquisition.fetchWithRetry rateLimited 3
  = Acquisition.mkRun
      (Acquisition.Threw
         (Acquisition.HttpError 500 "Internal Server Error"))
      [500; 2000; 3000]%Z 3.
Proof.
  destruct (fetchWithRetry_exhausted rateLimited 3) as [H _]; [|exact H].
  intros [|j] Hj response E; simpl in E; by simplify_eq.
Defined.

End MoreInstances.
